(** * AnkhWaveStudio WASM plugin templates: effect and instrument

    Shallow embedding of
      src/audio/plugins/wasm/templates/effect_template.c
      src/audio/plugins/wasm/templates/instrument_template.c

    C [float] is IEEE-754 binary32.  It is modelled by the Standard
    Library's executable specification of binary floating point
    ([spec_float], round to nearest even) at precision 24 and maximal
    exponent 128, so NaN, the infinities and signed zeros behave as they do
    in the compiled module.  C [int] is modelled by [Z]: the signed
    arithmetic of the source is index arithmetic and MIDI offsets, whose
    overflow is undefined in C and does not occur for buffers that fit the
    address space; the only unsigned arithmetic (the noise generator) has
    its reduction modulo 2^32 written out.  Loop counters that start at 0
    and count up are [nat].  The file-scope variables of each template
    form a record that every function takes and returns; the arrays are
    lists read with [!!] and written with [<[ _ := _ ]>], and the buffers
    passed by the host are lists as well. *)

From Stdlib Require Import ZArith Bool Lia.
From Stdlib Require Import Floats.SpecFloat.
From stdpp Require Import base list.

Local Open Scope Z_scope.

(* ====================================================================== *)
(** * Binary32 arithmetic *)
(* ====================================================================== *)

Module F32.

(** The type of C [float] values. *)
Abbreviation float := spec_float.

Definition prec : Z := 24.
Definition emax : Z := 128.

Definition add : float -> float -> float := SFadd prec emax.
Definition sub : float -> float -> float := SFsub prec emax.
Definition mul : float -> float -> float := SFmul prec emax.
Definition div : float -> float -> float := SFdiv prec emax.
Definition fabsf : float -> float := SFabs.

(** C comparison operators; every comparison with NaN is false. *)
Definition lt (x y : float) : bool := SFltb x y.
Definition le (x y : float) : bool := SFleb x y.
Definition gt (x y : float) : bool := lt y x.
Definition ge (x y : float) : bool := le y x.

(** Conversion of a C [int] to [float] (round to nearest even). *)
Definition of_int (z : Z) : float := binary_normalize prec emax z 0 false.

(** The cast [(int)x]: truncation toward zero.  The cast is undefined in C
    for NaN and the infinities; they are sent to 0 here. *)
Definition to_int (x : float) : Z :=
  match x with
  | S754_finite s m e =>
      let a := match e with
               | Zneg p => Z.shiftr (Zpos m) (Zpos p)
               | _ => Z.shiftl (Zpos m) e
               end in
      if s then - a else a
  | _ => 0
  end.

(** A decimal literal [n/d] with suffix [f]: the binary32 value nearest to
    the quotient. *)
Definition lit (n d : positive) : float :=
  div (S754_finite false n 0) (S754_finite false d 0).

Definition zero : float := S754_zero false.
Definition one : float := of_int 1.
Definition two : float := of_int 2.
Definition nan : float := S754_nan.

Definition is_nan (x : float) : bool :=
  match x with S754_nan => true | _ => false end.




(** [lo <= x <= hi] with the C comparisons. *)
Definition in_range (x lo hi : float) : bool := le lo x && le x hi.

End F32.

(* ====================================================================== *)
(** * effect_template.c *)
(* ====================================================================== *)

Module Effect.
Import F32.

Definition NUM_CHANNELS : nat := 2.
Definition NUM_PARAMETERS : Z := 4.

(** The file-scope variables the processing and parameter functions use.
    The delay buffer ([delayBuffer], [delayWritePos], [delayLength]) is
    allocated by [init] and cleared by [reset] but never read or written by
    [process], [processBlock] or the parameter functions; it is left out. *)
Record state : Type := mkState {
  sampleRate : float;
  bufferSize : Z;
  params : list float;        (* float params[NUM_PARAMETERS] *)
  filterState : list float    (* float filterState[2], one per channel *)
}.

(** The static initialisers. *)
Definition initial : state :=
  {| sampleRate := of_int 44100;
     bufferSize := 128;
     params := [one; lit 1 2; of_int 1000; lit 1 2];
     filterState := [zero; zero] |}.

Definition wf (st : state) : Prop :=
  length (params st) = 4%nat /\ length (filterState st) = 2%nat.

(** [a[i]] for a float array. *)
Definition load (a : list float) (i : nat) : float := default zero (a !! i).

Definition clamp (value min max : float) : float :=
  if lt value min then min
  else if gt value max then max
  else value.

Definition lerp (a b t : float) : float := add a (mul (sub b a) t).

(** [lowpass(input, &state, cutoff)]: the value returned is also the value
    stored in [*state]. *)
Definition alpha_of (sr cutoff : float) : float :=
  let rc := div one (mul (mul two (lit 314159265 100000000)) cutoff) in
  let dt := div one sr in
  div dt (add rc dt).

Definition lowpass (sr input state cutoff : float) : float :=
  lerp state input (alpha_of sr cutoff).

Definition init (st : state) (sr : float) (bs : Z) : state :=
  {| sampleRate := sr; bufferSize := bs; params := params st;
     filterState := <[1%nat := zero]> (<[0%nat := zero]> (filterState st)) |}.

Definition reset (st : state) : state :=
  {| sampleRate := sampleRate st; bufferSize := bufferSize st;
     params := params st;
     filterState := <[1%nat := zero]> (<[0%nat := zero]> (filterState st)) |}.

(** The body shared by the two processing loops: one sample of channel
    [ch], read at [input[idx]] and written at [output[idx]].  The pair
    carried through the loops is (filterState, output). *)
Definition sample_body (sr gain mix cutoff : float) (input : list float)
    (ch idx : nat) (acc : list float * list float) : list float * list float :=
  let '(fs, output) := acc in
  let in_ := load input idx in
  let filtered := lowpass sr in_ (load fs ch) cutoff in
  let processed := lerp in_ filtered mix in
  (<[ch := filtered]> fs, <[idx := mul processed gain]> output).

(** [process]: interleaved stereo.  [input[idx]] is read before
    [output[idx]] is written and no other cell of [output] is read, so the
    result is the same when the host passes one buffer for both. *)
Definition process_loop (sr gain mix cutoff : float) (input : list float)
    (numSamples : nat) (acc : list float * list float)
    : list float * list float :=
  foldl (fun acc i =>
           foldl (fun acc ch =>
                    sample_body sr gain mix cutoff input ch
                                (i * NUM_CHANNELS + ch)%nat acc)
                 acc (seq 0 NUM_CHANNELS))
        acc (seq 0 numSamples).

Definition process (st : state) (input output : list float) (numSamples : Z)
    : state * list float :=
  let gain := load (params st) 0 in
  let mix := load (params st) 1 in
  let cutoff := load (params st) 2 in
  let '(fs, out) :=
    process_loop (sampleRate st) gain mix cutoff input (Z.to_nat numSamples)
                 (filterState st, output) in
  ({| sampleRate := sampleRate st; bufferSize := bufferSize st;
      params := params st; filterState := fs |}, out).

(** [processBlock]: planar channels, channel [ch] at offset
    [ch * numSamples]; the loop condition is
    [ch < numChannels && ch < NUM_CHANNELS]. *)
Definition block_loop (sr gain mix cutoff : float) (input : list float)
    (numSamples numChannels : nat) (acc : list float * list float)
    : list float * list float :=
  foldl (fun acc ch =>
           foldl (fun acc i =>
                    sample_body sr gain mix cutoff input ch
                                (ch * numSamples + i)%nat acc)
                 acc (seq 0 numSamples))
        acc (seq 0 (Nat.min numChannels NUM_CHANNELS)).

Definition processBlock (st : state) (input output : list float)
    (numSamples numChannels : Z) : state * list float :=
  let gain := load (params st) 0 in
  let mix := load (params st) 1 in
  let cutoff := load (params st) 2 in
  let '(fs, out) :=
    block_loop (sampleRate st) gain mix cutoff input
               (Z.to_nat numSamples) (Z.to_nat numChannels)
               (filterState st, output) in
  ({| sampleRate := sampleRate st; bufferSize := bufferSize st;
      params := params st; filterState := fs |}, out).

Definition getParameterCount : Z := NUM_PARAMETERS.

Definition getParameter (st : state) (index : Z) : float :=
  if (0 <=? index) && (index <? NUM_PARAMETERS)
  then load (params st) (Z.to_nat index)
  else zero.

Definition set_params (st : state) (ps : list float) : state :=
  {| sampleRate := sampleRate st; bufferSize := bufferSize st;
     params := ps; filterState := filterState st |}.

Definition setParameter (st : state) (index : Z) (value : float) : state :=
  if (0 <=? index) && (index <? NUM_PARAMETERS) then
    match index with
    | 0 => set_params st (<[0%nat := clamp value zero two]> (params st))
    | 1 => set_params st (<[1%nat := clamp value zero one]> (params st))
    | 2 => set_params st
             (<[2%nat := clamp value (of_int 20) (of_int 20000)]> (params st))
    | 3 => set_params st (<[3%nat := clamp value zero one]> (params st))
    | _ => st
    end
  else st.

(** The ranges the comments of [params] and [setParameter] declare. *)
Definition param_min (index : Z) : float :=
  match index with 2 => of_int 20 | _ => zero end.

Definition param_max (index : Z) : float :=
  match index with 0 => two | 2 => of_int 20000 | _ => one end.

Definition getLatency : Z := 0.

Definition getSampleRate (st : state) : float := sampleRate st.

(** ** The delay buffer

    [init] allocates it, [reset] clears it and [dispose] frees it; no
    other function reads or writes it.  A buffer that is [Some b] stands
    for a non-NULL pointer to the cells [b], [None] for NULL. *)
Record delay : Type := mkDelay {
  delayBuffer : option (list float);
  delayWritePos : Z;
  delayLength : Z
}.

Definition initial_delay : delay := mkDelay None 0 0.

(** [memset(buf, 0, n * sizeof(float))]. *)
Definition zero_fill (buf : list float) (n : nat) : list float :=
  foldl (fun b i => <[i := zero]> b) buf (seq 0 n).

(** The delay part of [init].  [malloc] either fails ([None]) or returns a
    block of uninitialised cells ([Some block]); the previous pointer is
    overwritten without being freed. *)
Definition init_delay (d : delay) (sr : float) (malloc : option (list float))
    : delay :=
  let len := to_int sr in
  mkDelay (match malloc with
           | Some block => Some (zero_fill block (Z.to_nat (len * 2)))
           | None => None
           end) 0 len.

Definition reset_delay (d : delay) : delay :=
  mkDelay (match delayBuffer d with
           | Some b => Some (zero_fill b (Z.to_nat (delayLength d * 2)))
           | None => None
           end) 0 (delayLength d).

Definition dispose_delay (d : delay) : delay :=
  mkDelay None (delayWritePos d) (delayLength d).

(** ** Vocabulary for comparing the two processing functions *)

(** The filter state of one channel after the samples [xs], starting from
    [state]. *)
Definition channel_run (sr cutoff state : float) (xs : list float) : float :=
  foldl (fun s x => lowpass sr x s cutoff) state xs.

(** The first [n] samples of channel [ch] in an interleaved stereo buffer
    and in a planar buffer of [n] samples per channel. *)
Definition interleaved_channel (buf : list float) (ch n : nat) : list float :=
  (fun i => load buf (i * 2 + ch)%nat) <$> seq 0 n.

Definition planar_channel (buf : list float) (ch n : nat) : list float :=
  (fun i => load buf (ch * n + i)%nat) <$> seq 0 n.

End Effect.

(* ====================================================================== *)
(** * instrument_template.c *)
(* ====================================================================== *)

Module Instrument.
Import F32.

(** The functions of [<math.h>] the template calls.  Their code is not part
    of the repository; every definition and theorem below is parametric in
    them. *)
Class Libm : Type := {
  sinf : float -> float;
  powf : float -> float -> float;
  tanhf : float -> float;
  fmodf : float -> float -> float
}.

(** A stand-in used to run the embedding on concrete inputs: the first
    term of each function's expansion (sin x ~ x, tanh x ~ x, 2^y ~ 1,
    fmod x 1 ~ x on [0,1)).  Every theorem is stated for an arbitrary
    [Libm]; this instance only serves the concrete examples. *)
Definition linear_libm : Libm :=
  {| sinf := fun x => x;
     powf := fun _ _ => F32.one;
     tanhf := fun x => x;
     fmodf := fun x _ => x |}.

Definition MAX_VOICES : nat := 16.
Definition NUM_CHANNELS : nat := 2.
Definition NUM_PARAMETERS : Z := 8.
Definition PI : float := lit 314159265358979323846 100000000000000000000.
Definition TWO_PI : float := mul two PI.

(** [WaveformType] is a C enum, that is an [int]. *)
Definition WAVE_SINE : Z := 0.
Definition WAVE_SQUARE : Z := 1.
Definition WAVE_SAW : Z := 2.
Definition WAVE_TRIANGLE : Z := 3.
Definition WAVE_NOISE : Z := 4.

Record Voice : Type := mkVoice {
  active : Z;
  note : Z;
  velocity : float;
  phase : float;
  phaseIncrement : float;
  envelope : float;
  envStage : Z;                (* 0=off, 1=attack, 2=decay, 3=sustain, 4=release *)
  envTarget : float;
  filterState : float * float; (* float filterState[2] *)
  lfoPhase : float
}.

Record state : Type := mkState {
  sampleRate : float;
  bufferSize : Z;
  voices : list Voice;         (* Voice voices[MAX_VOICES] *)
  params : list float;         (* float params[NUM_PARAMETERS] *)
  masterVolume : float;
  pitchBendValue : float;
  modWheel : float;
  noiseState : Z               (* unsigned int *)
}.

Definition zero_voice : Voice :=
  mkVoice 0 0 zero zero zero zero 0 zero (zero, zero) zero.

(** The static initialisers (a static array is zero-initialised). *)
Definition initial : state :=
  {| sampleRate := of_int 44100;
     bufferSize := 128;
     voices := replicate MAX_VOICES zero_voice;
     params := [zero; lit 1 100; lit 1 10; lit 7 10; lit 3 10;
                of_int 5000; lit 3 10; zero];
     masterVolume := lit 8 10;
     pitchBendValue := zero;
     modWheel := zero;
     noiseState := 12345 |}.

Definition wf (st : state) : Prop :=
  length (voices st) = MAX_VOICES /\ length (params st) = 8%nat.

Definition load (a : list float) (i : nat) : float := default zero (a !! i).

(** ** Field assignments *)

Definition set_phaseIncrement (v : Voice) (x : float) : Voice :=
  mkVoice (active v) (note v) (velocity v) (phase v) x (envelope v)
          (envStage v) (envTarget v) (filterState v) (lfoPhase v).

Definition set_phase (v : Voice) (x : float) : Voice :=
  mkVoice (active v) (note v) (velocity v) x (phaseIncrement v) (envelope v)
          (envStage v) (envTarget v) (filterState v) (lfoPhase v).

Definition set_envelope (v : Voice) (x : float) : Voice :=
  mkVoice (active v) (note v) (velocity v) (phase v) (phaseIncrement v) x
          (envStage v) (envTarget v) (filterState v) (lfoPhase v).

Definition set_envStage (v : Voice) (s : Z) : Voice :=
  mkVoice (active v) (note v) (velocity v) (phase v) (phaseIncrement v)
          (envelope v) s (envTarget v) (filterState v) (lfoPhase v).

Definition set_active (v : Voice) (a : Z) : Voice :=
  mkVoice a (note v) (velocity v) (phase v) (phaseIncrement v)
          (envelope v) (envStage v) (envTarget v) (filterState v) (lfoPhase v).

Definition set_filterState (v : Voice) (fs : float * float) : Voice :=
  mkVoice (active v) (note v) (velocity v) (phase v) (phaseIncrement v)
          (envelope v) (envStage v) (envTarget v) fs (lfoPhase v).

Definition set_voices (st : state) (vs : list Voice) : state :=
  mkState (sampleRate st) (bufferSize st) vs (params st) (masterVolume st)
          (pitchBendValue st) (modWheel st) (noiseState st).

Definition set_params (st : state) (ps : list float) : state :=
  mkState (sampleRate st) (bufferSize st) (voices st) ps (masterVolume st)
          (pitchBendValue st) (modWheel st) (noiseState st).

(** ** Helper functions *)

Definition clamp (value min max : float) : float :=
  if lt value min then min
  else if gt value max then max
  else value.

Definition frequencyToPhaseIncrement (sr freq : float) : float := div freq sr.

Definition polyblep (t dt : float) : float :=
  if lt t dt then
    let t := div t dt in
    sub (sub (add t t) (mul t t)) one
  else if gt t (sub one dt) then
    let t := div (sub t one) dt in
    add (add (add (mul t t) t) t) one
  else zero.

(** [noise()]: the new generator state and the sample. *)
Definition noise (ns : Z) : Z * float :=
  let ns' := (ns * 1103515245 + 12345) mod 2 ^ 32 in
  (ns', sub (div (of_int (Z.land (Z.shiftr ns' 16) 32767)) (lit 32767 2)) one).

(** ** Envelope *)

Definition updateEnvelope (ps : list float) (sr : float) (v : Voice) : Voice :=
  let attack := load ps 1 in
  let decay := load ps 2 in
  let sustain := load ps 3 in
  let release := load ps 4 in
  match envStage v with
  | 1 =>
      let rate := div one (mul attack sr) in
      let v := set_envelope v (add (envelope v) rate) in
      if ge (envelope v) one
      then set_envStage (set_envelope v one) 2
      else v
  | 2 =>
      let rate := div (sub one sustain) (mul decay sr) in
      let v := set_envelope v (sub (envelope v) rate) in
      if le (envelope v) sustain
      then set_envStage (set_envelope v sustain) 3
      else v
  | 3 => v
  | 4 =>
      let rate := div (envelope v) (mul release sr) in
      let v := set_envelope v (sub (envelope v) rate) in
      if le (envelope v) (lit 1 1000)
      then set_active (set_envStage (set_envelope v zero) 0) 0
      else v
  | _ => v
  end.

Section WithLibm.
Context {M : Libm}.

Definition noteToFrequency (n : Z) : float :=
  mul (of_int 440) (powf two (div (of_int (n - 69)) (of_int 12))).

(** ** Oscillator: the voice with its phase advanced, the generator state
    and the sample.  The cases are [WAVE_SINE] to [WAVE_NOISE]; the C
    [switch] has no default, so any other value leaves the sample at 0. *)
Definition generateOscillator (v : Voice) (waveform : Z) (ns : Z)
    : Voice * Z * float :=
  let t := phase v in
  let dt := phaseIncrement v in
  let '(ns, sample) :=
    match waveform with
    | 0 => (ns, sinf (mul t TWO_PI))
    | 1 =>
        let sample := if lt t (lit 1 2) then one else SFopp one in
        let sample := sub sample (polyblep t dt) in
        (ns, add sample (polyblep (fmodf (add t (lit 1 2)) one) dt))
    | 2 =>
        let sample := sub (mul two t) one in
        (ns, sub sample (polyblep t dt))
    | 3 => (ns, sub (mul (of_int 4) (fabsf (sub t (lit 1 2)))) one)
    | 4 => noise ns
    | _ => (ns, zero)
    end in
  let v := set_phase v (add (phase v) dt) in
  let v := if ge (phase v) one then set_phase v (sub (phase v) one) else v in
  (v, ns, sample).

(** ** State variable filter: the voice with its filter state updated and
    the lowpass output. *)
Definition processFilter (ps : list float) (sr : float) (v : Voice)
    (input : float) : Voice * float :=
  let cutoff := load ps 5 in
  let resonance := load ps 6 in
  let envMod := mul (envelope v) (lit 1 2) in
  let cutoff := mul cutoff (add one envMod) in
  let cutoff := clamp cutoff (of_int 20) (of_int 20000) in
  let f := mul two (sinf (div (mul PI cutoff) sr)) in
  let q := sub one (mul resonance (lit 9 10)) in
  let low := add (snd (filterState v)) (mul f (fst (filterState v))) in
  let high := sub (sub input low) (mul q (fst (filterState v))) in
  let band := add (mul f high) (fst (filterState v)) in
  (set_filterState v (band, low), low).

(** ** Core functions *)

Definition init_voice (v : Voice) : Voice :=
  mkVoice 0 0 zero zero zero zero 0 (envTarget v) (zero, zero) zero.

Definition init (st : state) (sr : float) (bs : Z) : state :=
  mkState sr bs (init_voice <$> voices st) (params st) (masterVolume st)
          (pitchBendValue st) (modWheel st) (noiseState st).

(** The body of the voice loop of [process] for an active voice: the
    updated voice, the generator state and the voice's term of the mix. *)
Definition voice_body (ps : list float) (sr pitchBend detune : float)
    (waveform : Z) (v : Voice) (ns : Z) : Voice * Z * float :=
  let freq := noteToFrequency (note v) in
  let bendSemitones := mul pitchBend two in
  let totalDetune := add bendSemitones detune in
  let freq := mul freq (powf two (div totalDetune (of_int 12))) in
  let v := set_phaseIncrement v (frequencyToPhaseIncrement sr freq) in
  let '(v, ns, osc) := generateOscillator v waveform ns in
  let '(v, filtered) := processFilter ps sr v osc in
  let voiced := mul (mul filtered (envelope v)) (velocity v) in
  let v := updateEnvelope ps sr v in
  (v, ns, voiced).

(** [for (v = 0; v < MAX_VOICES; v++)]: inactive voices are skipped. *)
Fixpoint voice_loop (ps : list float) (sr pitchBend detune : float)
    (waveform : Z) (vs : list Voice) (ns : Z) (sample : float)
    : list Voice * Z * float :=
  match vs with
  | [] => ([], ns, sample)
  | v :: vs' =>
      if active v =? 0 then
        let '(vs'', ns, sample) :=
          voice_loop ps sr pitchBend detune waveform vs' ns sample in
        (v :: vs'', ns, sample)
      else
        let '(v', ns, voiced) :=
          voice_body ps sr pitchBend detune waveform v ns in
        let '(vs'', ns, sample) :=
          voice_loop ps sr pitchBend detune waveform vs' ns
                     (add sample voiced) in
        (v' :: vs'', ns, sample)
  end.

(** One iteration of the sample loop of [process]: the state after the
    sample and the value written to both channels. *)
Definition sample_step (waveform : Z) (detune : float) (st : state)
    : state * float :=
  let '(vs, ns, sample) :=
    voice_loop (params st) (sampleRate st) (pitchBendValue st) detune
               waveform (voices st) (noiseState st) zero in
  let sample := mul sample (masterVolume st) in
  let sample := tanhf sample in
  (mkState (sampleRate st) (bufferSize st) vs (params st) (masterVolume st)
           (pitchBendValue st) (modWheel st) ns, sample).

(** [memset(output, 0, n * sizeof(float))]. *)
Definition memset_zero (output : list float) (n : nat) : list float :=
  foldl (fun out i => <[i := zero]> out) output (seq 0 n).

Definition process_loop (waveform : Z) (detune : float) (numSamples : nat)
    (acc : state * list float) : state * list float :=
  foldl (fun acc i =>
           let '(st, output) := acc in
           let '(st, sample) := sample_step waveform detune st in
           (st, <[(i * NUM_CHANNELS + 1)%nat := sample]>
                  (<[(i * NUM_CHANNELS)%nat := sample]> output)))
        acc (seq 0 numSamples).

(** [process]: [input] is ignored.  The byte count handed to [memset] is
    [numSamples * NUM_CHANNELS * sizeof(float)], of the unsigned type
    [size_t]: when [numSamples] is negative it wraps around to
    2^w + 8 * numSamples for a [w]-bit [size_t], a count that has nothing
    to do with the block, and [memset] clears that many bytes from
    [output] on, past the end of the buffer.  What such a call does is not
    defined by the function; it has no result here ([None]).  A call with
    [numSamples >= 0] returns the state and the output buffer it
    leaves. *)
Definition process (st : state) (input output : list float) (numSamples : Z)
    : option (state * list float) :=
  if numSamples <? 0 then None
  else
    let waveform := to_int (load (params st) 0) in
    let detune := load (params st) 7 in
    let n := Z.to_nat numSamples in
    Some (process_loop waveform detune n
                       (st, memset_zero output (n * NUM_CHANNELS))).

(** [dispose]: nothing to free. *)
Definition dispose (st : state) : state := st.

Definition reset_voice (v : Voice) : Voice :=
  mkVoice 0 (note v) (velocity v) (phase v) (phaseIncrement v) zero 0
          (envTarget v) (zero, zero) (lfoPhase v).

Definition reset (st : state) : state :=
  mkState (sampleRate st) (bufferSize st) (reset_voice <$> voices st)
          (params st) (masterVolume st) zero zero (noiseState st).

(** ** MIDI functions *)

Definition noteOff_voice (n : Z) (v : Voice) : Voice :=
  if negb (active v =? 0) && (note v =? n) && negb (envStage v =? 4)
  then set_envStage v 4
  else v.

Definition noteOff (st : state) (n channel : Z) : state :=
  set_voices st (noteOff_voice n <$> voices st).

(** The search loop of [noteOn], started at index [i]: the final values of
    [voiceIndex] (still -1 when the loop ended without [break]),
    [oldestTime] and [oldestIndex]. *)
Fixpoint scan (vs : list Voice) (i : Z) (oldestTime : float) (oldestIndex : Z)
    : Z * float * Z :=
  match vs with
  | [] => (-1, oldestTime, oldestIndex)
  | v :: vs' =>
      if active v =? 0 then (i, oldestTime, oldestIndex)
      else if lt (envelope v) oldestTime || (i =? 0)
           then scan vs' (i + 1) (envelope v) i
           else scan vs' (i + 1) oldestTime oldestIndex
  end.

(** [voiceIndex] after the search loop and the stealing fallback. *)
Definition find_voice (vs : list Voice) : Z :=
  let '(voiceIndex, _, oldestIndex) := scan vs 0 zero 0 in
  if voiceIndex =? -1 then oldestIndex else voiceIndex.

Definition start_voice (sr : float) (n vel : Z) (v : Voice) : Voice :=
  mkVoice 1 n (div (of_int vel) (of_int 127)) zero
          (frequencyToPhaseIncrement sr (noteToFrequency n))
          zero 1 (envTarget v) (zero, zero) (lfoPhase v).

Definition noteOn (st : state) (n vel channel : Z) : state :=
  if vel =? 0 then noteOff st n channel
  else
    let voiceIndex := find_voice (voices st) in
    set_voices st
      (alter (start_voice (sampleRate st) n vel) (Z.to_nat voiceIndex)
             (voices st)).

Definition controlChange (st : state) (cc value channel : Z) : state :=
  let normalizedValue := div (of_int value) (of_int 127) in
  match cc with
  | 1 => mkState (sampleRate st) (bufferSize st) (voices st) (params st)
                 (masterVolume st) (pitchBendValue st) normalizedValue
                 (noiseState st)
  | 7 => mkState (sampleRate st) (bufferSize st) (voices st) (params st)
                 normalizedValue (pitchBendValue st) (modWheel st)
                 (noiseState st)
  | 74 => set_params st
            (<[5%nat := add (of_int 20) (mul normalizedValue (of_int 19980))]>
               (params st))
  | 71 => set_params st (<[6%nat := normalizedValue]> (params st))
  | 123 => reset st
  | _ => st
  end.

Definition pitchBend (st : state) (value channel : Z) : state :=
  mkState (sampleRate st) (bufferSize st) (voices st) (params st)
          (masterVolume st) (div (of_int (value - 8192)) (of_int 8192))
          (modWheel st) (noiseState st).

End WithLibm.

(** ** Parameter functions *)

Definition getParameterCount : Z := NUM_PARAMETERS.

Definition getParameter (st : state) (index : Z) : float :=
  if (0 <=? index) && (index <? NUM_PARAMETERS)
  then load (params st) (Z.to_nat index)
  else zero.

Definition setParameter (st : state) (index : Z) (value : float) : state :=
  if (0 <=? index) && (index <? NUM_PARAMETERS) then
    match index with
    | 0 => set_params st (<[0%nat := clamp value zero (of_int 4)]> (params st))
    | 1 => set_params st (<[1%nat := clamp value (lit 1 1000) two]> (params st))
    | 2 => set_params st (<[2%nat := clamp value (lit 1 1000) two]> (params st))
    | 3 => set_params st (<[3%nat := clamp value zero one]> (params st))
    | 4 => set_params st
             (<[4%nat := clamp value (lit 1 1000) (of_int 5)]> (params st))
    | 5 => set_params st
             (<[5%nat := clamp value (of_int 20) (of_int 20000)]> (params st))
    | 6 => set_params st (<[6%nat := clamp value zero one]> (params st))
    | 7 => set_params st (<[7%nat := clamp value (SFopp one) one]> (params st))
    | _ => st
    end
  else st.

(** The ranges the comments of [params] declare. *)
Definition param_min (index : Z) : float :=
  match index with
  | 1 | 2 | 4 => lit 1 1000
  | 5 => of_int 20
  | 7 => SFopp one
  | _ => zero
  end.

Definition param_max (index : Z) : float :=
  match index with
  | 0 => of_int 4
  | 1 | 2 => two
  | 4 => of_int 5
  | 5 => of_int 20000
  | 7 => one
  | _ => one
  end.

Definition getLatency : Z := 0.

(** ** Vocabulary of the specification *)

(** The envelope stages by name. *)
Inductive Stage : Type := Idle | Attack | Decay | Sustain | Release.

Definition stage_code (s : Stage) : Z :=
  match s with
  | Idle => 0 | Attack => 1 | Decay => 2 | Sustain => 3 | Release => 4
  end.

Definition next_stage (s : Stage) : Stage :=
  match s with
  | Idle => Attack | Attack => Decay | Decay => Sustain
  | Sustain => Release | Release => Idle
  end.

(** The per-sample envelope update in the words of the specification:
    the stage and level after the sample, and whether the voice is
    deactivated. *)
Definition envelope_spec (attackTime decayTime sustain releaseTime sr : float)
    (s : Stage) (level : float) : Stage * float * bool :=
  match s with
  | Idle => (Idle, level, false)
  | Attack =>
      let level' := add level (div one (mul attackTime sr)) in
      if ge level' one then (Decay, one, false) else (Attack, level', false)
  | Decay =>
      let level' := sub level (div (sub one sustain) (mul decayTime sr)) in
      if le level' sustain then (Sustain, sustain, false)
      else (Decay, level', false)
  | Sustain => (Sustain, level, false)
  | Release =>
      let level' := sub level (div level (mul releaseTime sr)) in
      if le level' (lit 1 1000) then (Idle, zero, true)
      else (Release, level', false)
  end.

(** Number of voices whose [active] flag is set. *)
Definition active_count (vs : list Voice) : nat :=
  length (filter (fun v => active v <> 0) vs).

Definition all_active (vs : list Voice) : Prop :=
  Forall (fun v => active v <> 0) vs.

(** [k] is the lowest index of an inactive voice. *)
Definition first_inactive (vs : list Voice) (k : nat) : Prop :=
  (exists v, vs !! k = Some v /\ active v = 0) /\
  (forall j u, (j < k)%nat -> vs !! j = Some u -> active u <> 0).

(** The level each voice has after a sample of [process]: advanced by the
    envelope update when the voice is active. *)
Definition level_after (ps : list float) (sr : float) (v : Voice) : float :=
  if active v =? 0 then envelope v else envelope (updateEnvelope ps sr v).

(** [v'] is what processing can make of [v]: an inactive voice is left as
    it is and an active voice may end, but no voice is started. *)
Definition not_started (v v' : Voice) : Prop :=
  (active v = 0 -> v' = v) /\ (active v' <> 0 -> active v <> 0).

(** The voice invariant of the data model: inactive exactly when the
    envelope is in the Idle stage. *)
Definition voice_inv (v : Voice) : Prop := active v = 0 <-> envStage v = 0.

Definition pool_inv (st : state) : Prop := Forall voice_inv (voices st).

(** A sequence of note-on events (note, velocity, channel). *)
Definition play {M : Libm} (st : state) (notes : list (Z * Z * Z)) : state :=
  foldl (fun s e => noteOn s (fst (fst e)) (snd (fst e)) (snd e)) st notes.

Section MixSpec.
Context {M : Libm}.

(** The filtered oscillator output of a voice for the current sample, and
    the noise generator state after it.  The envelope is not advanced. *)
Definition voice_filtered (ps : list float) (sr pitchBend detune : float)
    (waveform : Z) (v : Voice) (ns : Z) : float * Z :=
  let freq := mul (noteToFrequency (note v))
                  (powf two (div (add (mul pitchBend two) detune)
                                 (of_int 12))) in
  let '(v1, ns1, osc) :=
    generateOscillator
      (set_phaseIncrement v (frequencyToPhaseIncrement sr freq))
      waveform ns in
  (snd (processFilter ps sr v1 osc), ns1).

(** The terms of the mix in the words of the specification: for every
    active voice, in index order,
    filteredOutput * envelopeLevel * velocity, the level being the one the
    voice has before the sample. *)
Fixpoint mix_terms (ps : list float) (sr pitchBend detune : float)
    (waveform : Z) (vs : list Voice) (ns : Z) : list float :=
  match vs with
  | [] => []
  | v :: vs' =>
      if active v =? 0
      then mix_terms ps sr pitchBend detune waveform vs' ns
      else
        let '(filtered, ns1) :=
          voice_filtered ps sr pitchBend detune waveform v ns in
        mul (mul filtered (envelope v)) (velocity v)
        :: mix_terms ps sr pitchBend detune waveform vs' ns1
  end.

(** The stereo sample the specification prescribes for a state. *)
Definition mix_spec (waveform : Z) (detune : float) (st : state) : float :=
  tanhf (mul (foldl add zero
                (mix_terms (params st) (sampleRate st) (pitchBendValue st)
                           detune waveform (voices st) (noiseState st)))
             (masterVolume st)).

End MixSpec.

End Instrument.

(* ====================================================================== *)
(** * Facts about binary32 comparisons *)
(* ====================================================================== *)

Module F32Facts.
Import F32.

Lemma compare_antisym (x y : float) (c : comparison) :
  SFcompare x y = Some c -> SFcompare y x = Some (CompOpp c).
Proof.
  destruct x as [sx|sx| |sx mx ex], y as [sy|sy| |sy my ey]; simpl;
    try discriminate;
    try (intros [= <-]; repeat match goal with b : bool |- _ => destruct b end;
         reflexivity).
  intros [= <-]. f_equal.
  destruct sx, sy; try reflexivity;
    rewrite (Z.compare_antisym ex ey);
    destruct (Z.compare_spec ex ey) as [->| |]; simpl; try reflexivity;
    change (Pos.compare_cont Eq my mx) with (Pos.compare my mx);
    change (Pos.compare_cont Eq mx my) with (Pos.compare mx my);
    rewrite (Pos.compare_antisym mx my);
    destruct (Pos.compare mx my); reflexivity.
Qed.

Lemma compare_nan_l (y : float) : SFcompare nan y = None.
Proof. reflexivity. Qed.

Lemma compare_nan_r (x : float) : SFcompare x nan = None.
Proof. destruct x; reflexivity. Qed.

Lemma compare_total (x y : float) :
  is_nan x = false -> is_nan y = false -> exists c, SFcompare x y = Some c.
Proof.
  destruct x, y; simpl; try discriminate; intros _ _; eexists; reflexivity.
Qed.

Lemma lt_irrefl (x : float) : lt x x = false.
Proof.
  unfold lt, SFltb.
  destruct x as [s|s| |s m e]; simpl; try reflexivity.
  - destruct s; reflexivity.
  - rewrite Z.compare_refl.
    change (Pos.compare_cont Eq m m) with (Pos.compare m m).
    rewrite Pos.compare_refl. destruct s; reflexivity.
Qed.

Lemma lt_trans (x y z : float) :
  lt x y = true -> lt y z = true -> lt x z = true.
Proof.
  unfold lt, SFltb.
  destruct x as [sx|sx| |sx mx ex], y as [sy|sy| |sy my ey],
           z as [sz|sz| |sz mz ez]; simpl; try discriminate;
    repeat match goal with b : bool |- _ => destruct b end;
    simpl; try discriminate; try reflexivity;
    change (Pos.compare_cont Eq) with Pos.compare;
    destruct (Z.compare_spec ex ey), (Z.compare_spec ey ez),
             (Z.compare_spec ex ez); simpl; try discriminate;
      try reflexivity; try lia; subst;
    destruct (Pos.compare_spec mx my), (Pos.compare_spec my mz),
             (Pos.compare_spec mx mz); simpl; try discriminate;
      try reflexivity; try lia.
Qed.

(** Not below and not above, for a number, is between. *)
Lemma not_lt_le (x y : float) :
  is_nan x = false -> is_nan y = false -> lt x y = false -> le y x = true.
Proof.
  intros Hx Hy. unfold lt, le, SFltb, SFleb.
  destruct (compare_total x y Hx Hy) as [c Hc].
  rewrite Hc, (compare_antisym _ _ _ Hc). destruct c; simpl; congruence.
Qed.

Lemma le_not_lt (x y : float) : le x y = true -> lt y x = false.
Proof.
  unfold lt, le, SFltb, SFleb.
  destruct (SFcompare x y) as [c|] eqn:Hc; [|discriminate].
  rewrite (compare_antisym _ _ _ Hc). destruct c; simpl; congruence.
Qed.

Lemma le_nan_r (x : float) : le x nan = false.
Proof. unfold le, SFleb. rewrite compare_nan_r. reflexivity. Qed.

Lemma le_is_number (x y : float) :
  le x y = true -> is_nan x = false /\ is_nan y = false.
Proof. destruct x, y; simpl; try discriminate; auto. Qed.


Lemma le_refl (x : float) : is_nan x = false -> le x x = true.
Proof. intros Hx. apply not_lt_le; auto using lt_irrefl. Qed.

Lemma mul_comm (x y : float) : mul x y = mul y x.
Proof.
  destruct x as [sx|sx| |sx mx ex], y as [sy|sy| |sy my ey]; simpl;
    rewrite ?(xorb_comm sx sy); try reflexivity.
  unfold mul. simpl. rewrite (Pos.mul_comm mx my), (Z.add_comm ex ey).
  reflexivity.
Qed.




End F32Facts.

(* ====================================================================== *)
(** * Counting loops *)
(* ====================================================================== *)

Module Loops.

(** A [for (i = start; i < start + n; i++)] loop keeps what its body
    keeps. *)
Lemma foldl_seq_invariant {A : Type} (P : A -> Prop) (f : A -> nat -> A)
    (n start : nat) (a : A) :
  P a ->
  (forall a i, (start <= i < start + n)%nat -> P a -> P (f a i)) ->
  P (foldl f a (seq start n)).
Proof.
  revert start a. induction n as [|n IH]; intros start a Ha Hstep; simpl.
  - exact Ha.
  - apply IH.
    + apply Hstep; [lia | exact Ha].
    + intros b i Hi Hb. apply Hstep; [lia | exact Hb].
Qed.

(** Unrolling the last iteration. *)
Lemma foldl_seq_S {A : Type} (f : A -> nat -> A) (n start : nat) (a : A) :
  foldl f a (seq start (S n)) = f (foldl f a (seq start n)) (start + n)%nat.
Proof. rewrite seq_S, foldl_app. reflexivity. Qed.

(** Two bodies that agree on the indices visited give the same loop. *)
Lemma foldl_seq_ext {A : Type} (f g : A -> nat -> A) (n start : nat) (a : A) :
  (forall a i, (start <= i < start + n)%nat -> f a i = g a i) ->
  foldl f a (seq start n) = foldl g a (seq start n).
Proof.
  revert start a. induction n as [|n IH]; intros start a Hfg; simpl.
  - reflexivity.
  - rewrite Hfg by lia. apply IH. intros b i Hi. apply Hfg. lia.
Qed.


End Loops.

(* ====================================================================== *)
(** * Properties of the clamp helper and the parameter functions *)
(* ====================================================================== *)

Module ClampFacts.
Import F32 F32Facts.

(** Both templates define the same [clamp]. *)
Lemma clamp_same : Instrument.clamp = Effect.clamp.
Proof. reflexivity. Qed.

(** A number is clamped into a non-empty range. *)
Lemma clamp_in_range (v lo hi : float) :
  is_nan v = false -> le lo hi = true ->
  in_range (Effect.clamp v lo hi) lo hi = true.
Proof.
  intros Hv Hlh. destruct (le_is_number _ _ Hlh) as [Hlo Hhi].
  unfold Effect.clamp, in_range, gt.
  destruct (lt v lo) eqn:E1.
  - rewrite (le_refl lo Hlo), Hlh. reflexivity.
  - destruct (lt hi v) eqn:E2.
    + rewrite Hlh, (le_refl hi Hhi). reflexivity.
    + rewrite (not_lt_le v lo), (not_lt_le hi v); auto.
Qed.

(** A value inside the range is returned as it is. *)
Lemma clamp_id (v lo hi : float) :
  in_range v lo hi = true -> Effect.clamp v lo hi = v.
Proof.
  unfold in_range. intros [H1 H2]%andb_true_iff.
  unfold Effect.clamp, gt.
  rewrite (le_not_lt _ _ H1), (le_not_lt _ _ H2). reflexivity.
Qed.

(** NaN compares false with both bounds and goes through. *)
Lemma clamp_nan (lo hi : float) : Effect.clamp nan lo hi = nan.
Proof.
  unfold Effect.clamp, gt, lt, SFltb.
  rewrite compare_nan_l, compare_nan_r. reflexivity.
Qed.

Lemma in_range_nan (lo hi : float) : in_range nan lo hi = false.
Proof. unfold in_range. rewrite le_nan_r. reflexivity. Qed.

Lemma load_insert (a : list float) (i : nat) (x : float) :
  (i < length a)%nat -> Effect.load (<[i := x]> a) i = x.
Proof. intros H. unfold Effect.load. rewrite list_lookup_insert_eq; auto. Qed.

Lemma effect_range_nonempty (index : Z) :
  le (Effect.param_min index) (Effect.param_max index) = true.
Proof.
  destruct index as [|[[[]|[]|]|[[]|[]|]|]|]; vm_compute; reflexivity.
Qed.

Lemma instrument_range_nonempty (index : Z) :
  le (Instrument.param_min index) (Instrument.param_max index) = true.
Proof.
  destruct index as [|[[[]|[]|]|[[]|[]|]|]|]; vm_compute; reflexivity.
Qed.

(** [setParameter] then [getParameter] of a valid index is [clamp] at the
    bounds of that index. *)
Lemma effect_set_get (st : Effect.state) (index : Z) (value : float) :
  Effect.wf st -> 0 <= index < 4 ->
  Effect.getParameter (Effect.setParameter st index value) index
  = Effect.clamp value (Effect.param_min index) (Effect.param_max index).
Proof.
  intros [Hp _] Hi.
  assert (index = 0 \/ index = 1 \/ index = 2 \/ index = 3) as H by lia.
  destruct H as [->|[->|[->| ->]]]; cbn; apply load_insert; lia.
Qed.

Lemma instrument_set_get (st : Instrument.state) (index : Z) (value : float) :
  Instrument.wf st -> 0 <= index < 8 ->
  Instrument.getParameter (Instrument.setParameter st index value) index
  = Effect.clamp value (Instrument.param_min index)
                 (Instrument.param_max index).
Proof.
  intros [_ Hp] Hi.
  assert (index = 0 \/ index = 1 \/ index = 2 \/ index = 3 \/
          index = 4 \/ index = 5 \/ index = 6 \/ index = 7) as H by lia.
  destruct H as [->|[->|[->|[->|[->|[->|[->| ->]]]]]]]; cbn;
    apply load_insert; lia.
Qed.

Lemma effect_set_wf (st : Effect.state) (index : Z) (value : float) :
  Effect.wf st -> Effect.wf (Effect.setParameter st index value).
Proof.
  intros [Hp Hf]. unfold Effect.setParameter.
  destruct ((0 <=? index) && (index <? Effect.NUM_PARAMETERS)); [|split; auto].
  destruct index as [|[[[]|[]|]|[[]|[]|]|]|]; split; cbn;
    rewrite ?length_insert; auto.
Qed.

Lemma instrument_set_wf (st : Instrument.state) (index : Z) (value : float) :
  Instrument.wf st -> Instrument.wf (Instrument.setParameter st index value).
Proof.
  intros [Hv Hp]. unfold Instrument.setParameter.
  destruct ((0 <=? index) && (index <? Instrument.NUM_PARAMETERS));
    [|split; auto].
  destruct index as [|[[[]|[]|]|[[]|[]|]|]|]; split; cbn;
    rewrite ?length_insert; auto.
Qed.

(** For numbers the parameter round trip is the one the specification
    describes: the value read back lies in the declared range, and a value
    already in the range is read back unchanged. *)
Theorem set_get_number_in_range :
  forall (e : Effect.state) (s : Instrument.state) (index : Z) (value : float),
    Effect.wf e -> Instrument.wf s -> is_nan value = false ->
    (0 <= index < 4 ->
       let r := Effect.getParameter (Effect.setParameter e index value) index in
       in_range r (Effect.param_min index) (Effect.param_max index) = true /\
       (in_range value (Effect.param_min index) (Effect.param_max index) = true
        -> r = value)) /\
    (0 <= index < 8 ->
       let r := Instrument.getParameter
                  (Instrument.setParameter s index value) index in
       in_range r (Instrument.param_min index) (Instrument.param_max index)
         = true /\
       (in_range value (Instrument.param_min index)
                 (Instrument.param_max index) = true -> r = value)).
Proof.
  intros e s index value He Hs Hv. split; intros Hi; cbv zeta.
  - rewrite effect_set_get by assumption. split.
    + apply clamp_in_range; auto using effect_range_nonempty.
    + apply clamp_id.
  - rewrite instrument_set_get by assumption. split.
    + apply clamp_in_range; auto using instrument_range_nonempty.
    + apply clamp_id.
Qed.

(** C1.  The parameter store is meant to keep every stored value inside
    its declared range, whatever float is passed to [setParameter].  The
    code does so for every number but not for NaN: [clamp] compares NaN
    with both bounds, both comparisons are false, and NaN is stored.  In
    both templates [setParameter(0, NaN)] followed by [getParameter(0)]
    returns NaN, which is outside the declared range of parameter 0. *)
Theorem C1_setParameter_stores_nan :
  Effect.getParameter (Effect.setParameter Effect.initial 0 nan) 0 = nan /\
  in_range (Effect.getParameter (Effect.setParameter Effect.initial 0 nan) 0)
           (Effect.param_min 0) (Effect.param_max 0) = false /\
  Instrument.getParameter
    (Instrument.setParameter Instrument.initial 0 nan) 0 = nan /\
  in_range (Instrument.getParameter
              (Instrument.setParameter Instrument.initial 0 nan) 0)
           (Instrument.param_min 0) (Instrument.param_max 0) = false.
Proof. repeat split; vm_compute; reflexivity. Qed.

(** C6.  In both templates an index outside the parameter table makes
    [getParameter] return 0 and [setParameter] leave the whole state as it
    was, so every later [getParameter] returns what it returned before. *)
Theorem C6_out_of_range_index :
  forall (e : Effect.state) (s : Instrument.state) (index j : Z)
         (value : float),
    (index < 0 \/ index >= Effect.getParameterCount ->
       Effect.getParameter e index = zero /\
       Effect.setParameter e index value = e /\
       Effect.getParameter (Effect.setParameter e index value) j
       = Effect.getParameter e j) /\
    (index < 0 \/ index >= Instrument.getParameterCount ->
       Instrument.getParameter s index = zero /\
       Instrument.setParameter s index value = s /\
       Instrument.getParameter (Instrument.setParameter s index value) j
       = Instrument.getParameter s j).
Proof.
  intros e s index j value. split; intros Hi.
  - assert ((0 <=? index) && (index <? Effect.NUM_PARAMETERS) = false) as E.
    { unfold Effect.getParameterCount, Effect.NUM_PARAMETERS in *.
      apply andb_false_iff. destruct Hi; [left|right]; lia. }
    unfold Effect.getParameter at 1, Effect.setParameter. rewrite E. auto.
  - assert ((0 <=? index) && (index <? Instrument.NUM_PARAMETERS) = false) as E.
    { unfold Instrument.getParameterCount, Instrument.NUM_PARAMETERS in *.
      apply andb_false_iff. destruct Hi; [left|right]; lia. }
    unfold Instrument.getParameter at 1, Instrument.setParameter.
    rewrite E. auto.
Qed.

Lemma C6_out_of_range_index_witness :
  (Effect.getParameter Effect.initial 4 = zero /\
   Effect.setParameter Effect.initial 4 two = Effect.initial /\
   Effect.getParameter (Effect.setParameter Effect.initial 4 two) 0
   = Effect.getParameter Effect.initial 0) /\
  (Instrument.getParameter Instrument.initial (-1) = zero /\
   Instrument.setParameter Instrument.initial (-1) two = Instrument.initial /\
   Instrument.getParameter
     (Instrument.setParameter Instrument.initial (-1) two) 0
   = Instrument.getParameter Instrument.initial 0).
Proof.
  split.
  - apply (C6_out_of_range_index Effect.initial Instrument.initial 4 0 two).
    right. unfold Effect.getParameterCount, Effect.NUM_PARAMETERS. lia.
  - apply (C6_out_of_range_index Effect.initial Instrument.initial (-1) 0 two).
    left. lia.
Defined.

End ClampFacts.

(* ====================================================================== *)
(** * The effect's processing loops *)
(* ====================================================================== *)

Module EffectFacts.
Import F32 F32Facts Effect Loops.

Lemma load_insert_ne (a : list float) (i j : nat) (x : float) :
  i <> j -> load (<[i := x]> a) j = load a j.
Proof. intros H. unfold load. rewrite list_lookup_insert_ne; auto. Qed.

Section Loop.
Variables (sr gain mix cutoff : float) (input : list float).

Local Abbreviation body := (sample_body sr gain mix cutoff input).
Local Abbreviation loop := (process_loop sr gain mix cutoff input).

Lemma body_fst (ch idx : nat) (acc : list float * list float) :
  fst (body ch idx acc)
  = <[ch := lowpass sr (load input idx) (load (fst acc) ch) cutoff]> (fst acc).
Proof. destruct acc; reflexivity. Qed.

Lemma body_snd (ch idx : nat) (acc : list float * list float) :
  snd (body ch idx acc)
  = <[idx := mul (lerp (load input idx)
                       (lowpass sr (load input idx) (load (fst acc) ch) cutoff)
                       mix) gain]> (snd acc).
Proof. destruct acc; reflexivity. Qed.

Lemma body_lengths (ch idx : nat) (acc : list float * list float) :
  length (fst (body ch idx acc)) = length (fst acc) /\
  length (snd (body ch idx acc)) = length (snd acc).
Proof. rewrite body_fst, body_snd, !length_insert. auto. Qed.

(** One stereo frame is the body for channel 0 then for channel 1. *)
Lemma loop_S (n : nat) (acc : list float * list float) :
  loop (S n) acc
  = body 1%nat (n * 2 + 1)%nat (body 0%nat (n * 2 + 0)%nat (loop n acc)).
Proof.
  unfold process_loop. rewrite foldl_seq_S. reflexivity.
Qed.

Lemma loop_lengths (n : nat) (acc : list float * list float) :
  length (fst (loop n acc)) = length (fst acc) /\
  length (snd (loop n acc)) = length (snd acc).
Proof.
  induction n as [|n [IH1 IH2]]; [split; reflexivity|].
  rewrite loop_S.
  destruct (body_lengths 1 (n * 2 + 1) (body 0%nat (n * 2 + 0)%nat (loop n acc)))
    as [-> ->].
  destruct (body_lengths 0 (n * 2 + 0) (loop n acc)) as [-> ->]. auto.
Qed.

(** Frame [n] writes cells [2n] and [2n+1] only. *)
Lemma loop_S_other (n j : nat) (acc : list float * list float) :
  j <> (n * 2 + 0)%nat -> j <> (n * 2 + 1)%nat ->
  snd (loop (S n) acc) !! j = snd (loop n acc) !! j.
Proof.
  intros H0 H1. rewrite loop_S, !body_snd.
  rewrite !list_lookup_insert_ne by auto. reflexivity.
Qed.

(** A cell written by frame [i] is not written again. *)
Lemma loop_cell_stable (n i ch : nat) (acc : list float * list float) :
  (i < n)%nat -> (ch < 2)%nat ->
  snd (loop n acc) !! (i * 2 + ch)%nat
  = snd (loop (S i) acc) !! (i * 2 + ch)%nat.
Proof.
  intros Hi Hch. induction n as [|n IH]; [lia|].
  destruct (decide (i = n)) as [->|Hne]; [reflexivity|].
  rewrite loop_S_other by lia. apply IH. lia.
Qed.

(** What frame [i] computes for channel [ch], from the filter state left
    by the frames before it. *)
Lemma loop_frame (i ch : nat) (acc : list float * list float) :
  (ch < 2)%nat -> length (fst acc) = 2%nat ->
  (i * 2 + ch < length (snd acc))%nat ->
  let x := load input (i * 2 + ch)%nat in
  let y := lowpass sr x (load (fst (loop i acc)) ch) cutoff in
  snd (loop (S i) acc) !! (i * 2 + ch)%nat = Some (mul (lerp x y mix) gain) /\
  load (fst (loop (S i) acc)) ch = y.
Proof.
  intros Hch Hfs Hout. cbv zeta.
  destruct (loop_lengths i acc) as [L1 L2].
  rewrite loop_S, !body_snd, !body_fst.
  assert (ch = 0 \/ ch = 1)%nat as [-> | ->] by lia.
  - split.
    + rewrite list_lookup_insert_ne by lia.
      rewrite list_lookup_insert_eq by lia. reflexivity.
    + rewrite load_insert_ne by lia. apply ClampFacts.load_insert. lia.
  - rewrite !(load_insert_ne _ 0 1) by lia. split.
    + rewrite list_lookup_insert_eq by (rewrite length_insert; lia).
      reflexivity.
    + apply ClampFacts.load_insert. rewrite length_insert. lia.
Qed.

End Loop.

Lemma process_fst (st : state) (input output : list float) (n : Z) :
  filterState (fst (process st input output n))
  = fst (process_loop (sampleRate st) (load (params st) 0)
           (load (params st) 1) (load (params st) 2) input (Z.to_nat n)
           (filterState st, output)).
Proof. unfold process. destruct (process_loop _ _ _ _ _ _ _). reflexivity. Qed.

Lemma process_snd (st : state) (input output : list float) (n : Z) :
  snd (process st input output n)
  = snd (process_loop (sampleRate st) (load (params st) 0)
           (load (params st) 1) (load (params st) 2) input (Z.to_nat n)
           (filterState st, output)).
Proof. unfold process. destruct (process_loop _ _ _ _ _ _ _). reflexivity. Qed.


(** ** The two mix settings singled out by the specification *)




(** ** A constant input at the default cutoff *)





(** ** A constant input of 1.0 from the reset state *)









(** ** [processBlock] *)

Section Block.
Variables (sr gain mix cutoff : float).

Lemma body_input_ext (input input' : list float) (ch idx : nat)
    (acc : list float * list float) :
  load input' idx = load input idx ->
  sample_body sr gain mix cutoff input' ch idx acc
  = sample_body sr gain mix cutoff input ch idx acc.
Proof. intros H. unfold sample_body. destruct acc. rewrite H. reflexivity. Qed.

(** Only the cells of the first [min numChannels 2] planar channels are
    written and only their filter states are updated. *)
Lemma block_loop_frame (input : list float) (n nc : nat)
    (fs output : list float) :
  let m := Nat.min nc NUM_CHANNELS in
  let r := block_loop sr gain mix cutoff input n nc (fs, output) in
  (forall j, (m * n <= j)%nat -> snd r !! j = output !! j) /\
  (forall k, (m <= k)%nat -> fst r !! k = fs !! k) /\
  length (snd r) = length output /\ length (fst r) = length fs.
Proof.
  cbv zeta. unfold block_loop.
  apply (foldl_seq_invariant
           (fun acc =>
              (forall j, (Nat.min nc NUM_CHANNELS * n <= j)%nat ->
                         snd acc !! j = output !! j) /\
              (forall k, (Nat.min nc NUM_CHANNELS <= k)%nat ->
                         fst acc !! k = fs !! k) /\
              length (snd acc) = length output /\
              length (fst acc) = length fs)).
  - auto.
  - intros acc ch Hch Hacc.
    apply (foldl_seq_invariant
           (fun acc =>
              (forall j, (Nat.min nc NUM_CHANNELS * n <= j)%nat ->
                         snd acc !! j = output !! j) /\
              (forall k, (Nat.min nc NUM_CHANNELS <= k)%nat ->
                         fst acc !! k = fs !! k) /\
              length (snd acc) = length output /\
              length (fst acc) = length fs)); [exact Hacc|].
    clear acc Hacc. intros [fs' out'] i Hi (Ho & Hf & Lo & Lf). simpl in *.
    repeat split.
    + intros j Hj. rewrite list_lookup_insert_ne by nia. auto.
    + intros k Hk. rewrite list_lookup_insert_ne by lia. auto.
    + rewrite length_insert. exact Lo.
    + rewrite length_insert. exact Lf.
Qed.

(** Only the input cells of those channels are read. *)
Lemma block_loop_input_ext (input input' : list float) (n nc : nat)
    (acc : list float * list float) :
  (forall j, (j < Nat.min nc NUM_CHANNELS * n)%nat ->
             load input' j = load input j) ->
  block_loop sr gain mix cutoff input' n nc acc
  = block_loop sr gain mix cutoff input n nc acc.
Proof.
  intros H. unfold block_loop. apply foldl_seq_ext. intros a ch Hch.
  apply foldl_seq_ext. intros b i Hi. apply body_input_ext, H. nia.
Qed.

End Block.

Lemma processBlock_fst (st : state) (input output : list float) (n nc : Z) :
  fst (processBlock st input output n nc)
  = {| sampleRate := sampleRate st; bufferSize := bufferSize st;
       params := params st;
       filterState :=
         fst (block_loop (sampleRate st) (load (params st) 0)
                (load (params st) 1) (load (params st) 2) input
                (Z.to_nat n) (Z.to_nat nc) (filterState st, output)) |}.
Proof. unfold processBlock. destruct (block_loop _ _ _ _ _ _ _ _). reflexivity. Qed.

Lemma processBlock_snd (st : state) (input output : list float) (n nc : Z) :
  snd (processBlock st input output n nc)
  = snd (block_loop (sampleRate st) (load (params st) 0)
           (load (params st) 1) (load (params st) 2) input
           (Z.to_nat n) (Z.to_nat nc) (filterState st, output)).
Proof. unfold processBlock. destruct (block_loop _ _ _ _ _ _ _ _). reflexivity. Qed.

(** C10.  When [processBlock] is given more than two channels it treats
    the buffers as two planar channels of [numSamples] cells: every output
    cell from [2 * numSamples] on keeps its value, the output keeps its
    length, no filter state other than 0 and 1 changes (nor the parameters
    or the sample rate), input cells from [2 * numSamples] on are not
    read, and the result is the one for [numChannels = 2]. *)
Theorem C10_processBlock_two_channels :
  forall (st : state) (input input' output : list float)
         (numSamples numChannels : Z),
    2 < numChannels ->
    let n := Z.to_nat numSamples in
    let r := processBlock st input output numSamples numChannels in
    (forall j, (2 * n <= j)%nat -> snd r !! j = output !! j) /\
    length (snd r) = length output /\
    (forall k, (2 <= k)%nat ->
               filterState (fst r) !! k = filterState st !! k) /\
    length (filterState (fst r)) = length (filterState st) /\
    params (fst r) = params st /\
    sampleRate (fst r) = sampleRate st /\
    ((forall j, (j < 2 * n)%nat -> input' !! j = input !! j) ->
     processBlock st input' output numSamples numChannels = r) /\
    r = processBlock st input output numSamples 2.
Proof.
  intros st input input' output numSamples numChannels Hnc. cbv zeta.
  assert (Nat.min (Z.to_nat numChannels) NUM_CHANNELS = 2%nat) as Hm
    by (unfold NUM_CHANNELS; lia).
  pose proof (block_loop_frame (sampleRate st) (load (params st) 0)
                (load (params st) 1) (load (params st) 2) input
                (Z.to_nat numSamples) (Z.to_nat numChannels)
                (filterState st) output) as F.
  cbv zeta in F. rewrite Hm in F. destruct F as (Fo & Ff & Lo & Lf).
  rewrite processBlock_fst, processBlock_snd. simpl.
  repeat split; auto.
  - intros Hin. unfold processBlock.
    rewrite (block_loop_input_ext _ _ _ _ input input'); [reflexivity|].
    intros j Hj. unfold load. rewrite Hin; [reflexivity|]. lia.
  - unfold processBlock, block_loop. rewrite Hm. reflexivity.
Qed.

Lemma C10_processBlock_two_channels_witness :
  let output := [zero; zero; zero; zero; one; two] in
  let r := processBlock initial [one; one; one; one; two; two] output 2 3 in
  snd r !! 4%nat = output !! 4%nat /\ snd r !! 5%nat = output !! 5%nat /\
  length (snd r) = 6%nat /\
  r = processBlock initial [one; one; one; one; two; two] output 2 2.
Proof.
  cbv zeta.
  pose proof (C10_processBlock_two_channels initial
                [one; one; one; one; two; two]
                [one; one; one; one; two; two]
                [zero; zero; zero; zero; one; two] 2 3 ltac:(lia)) as H.
  cbv zeta in H. destruct H as (Ho & Lo & _ & _ & _ & _ & _ & E).
  split; [|split; [|split]].
  - apply Ho. simpl. lia.
  - apply Ho. simpl. lia.
  - exact Lo.
  - exact E.
Defined.

End EffectFacts.

(* ====================================================================== *)
(** * The instrument: envelope, note-off, MIDI scaling *)
(* ====================================================================== *)

Module InstrumentFacts.
Import F32 F32Facts Instrument Loops.

(** C2.  With the stage of a voice named by the specification's state
    machine, [updateEnvelope] is the specification's per-sample update: in
    Attack the level rises by 1/(attack*sampleRate) and, once >= 1, is set
    to 1 with the stage Decay; in Decay it falls by
    (1-sustain)/(decay*sampleRate) and, once <= sustain, is set to sustain
    with the stage Sustain; Sustain (and Idle) change nothing; in Release
    it falls by level/(release*sampleRate) and, once <= 0.001, is set to 0
    with the stage Idle and the voice deactivated.  No other field of the
    voice changes, and the stage either stays or moves to its successor
    in Idle -> Attack -> Decay -> Sustain -> Release -> Idle. *)
Theorem C2_updateEnvelope_state_machine :
  forall (ps : list float) (sr : float) (v : Voice) (s : Stage),
    envStage v = stage_code s ->
    let r := envelope_spec (load ps 1) (load ps 2) (load ps 3) (load ps 4)
                           sr s (envelope v) in
    let s' := fst (fst r) in
    let level' := snd (fst r) in
    let off := snd r in
    updateEnvelope ps sr v
    = mkVoice (if off then 0 else active v) (note v) (velocity v) (phase v)
              (phaseIncrement v) level' (stage_code s') (envTarget v)
              (filterState v) (lfoPhase v) /\
    (s' = s \/ s' = next_stage s) /\
    (s = Idle \/ s = Sustain -> s' = s /\ level' = envelope v) /\
    (off = true <-> s = Release /\ s' = Idle).
Proof.
  intros ps sr [a n vel ph inc env stg tgt fs lfo] s Hs. simpl in Hs.
  subst stg. cbv zeta. unfold updateEnvelope, envelope_spec.
  destruct s; cbn -[add sub mul div le ge lit one zero load];
    try match goal with |- context [if ?b then _ else _] => destruct b end;
    cbn -[add sub mul div le ge lit one zero load];
    repeat split; intros; try reflexivity;
    try (left; reflexivity); try (right; reflexivity); try discriminate;
    repeat match goal with
           | H : _ \/ _ |- _ => destruct H
           | H : _ /\ _ |- _ => destruct H
           end; discriminate.
Qed.

Lemma C2_updateEnvelope_state_machine_witness :
  (* one Release step at the default parameters from level 0.001: the level
     falls below the threshold and the voice goes Idle and inactive *)
  updateEnvelope (params initial) (of_int 44100)
    (mkVoice 1 69 one zero zero (lit 1 1000) 4 zero (zero, zero) zero)
  = mkVoice 0 69 one zero zero zero 0 zero (zero, zero) zero.
Proof.
  apply (C2_updateEnvelope_state_machine (params initial) (of_int 44100)
           (mkVoice 1 69 one zero zero (lit 1 1000) 4 zero (zero, zero) zero)
           Release).
  reflexivity.
Defined.

(** ** Note-off *)

Lemma noteOff_voice_spec (n : Z) (v : Voice) :
  noteOff_voice n v
  = if decide (active v <> 0 /\ note v = n /\ envStage v <> 4)
    then set_envStage v 4 else v.
Proof.
  unfold noteOff_voice.
  destruct (Z.eqb_spec (active v) 0), (Z.eqb_spec (note v) n),
           (Z.eqb_spec (envStage v) 4); simpl;
    destruct (decide _) as [(? & ? & ?)|H]; try reflexivity;
    try contradiction.
  exfalso. apply H. auto.
Qed.

(** C7.  A note-on with velocity 0 is the note-off of that note.  A
    note-off puts into Release (stage 4) every voice that is active, plays
    the given note and is not yet in Release, changing no other field of
    it; it leaves every other voice, the number of voices and the rest of
    the state as they were.  The channel is not looked at. *)
Theorem C7_noteOff_releases_matching_voices :
  forall {M : Libm} (st : state) (n channel : Z),
    noteOn st n 0 channel = noteOff st n channel /\
    (forall i v,
       voices st !! i = Some v ->
       active v <> 0 /\ note v = n /\ envStage v <> 4 ->
       voices (noteOff st n channel) !! i
       = Some (mkVoice (active v) (note v) (velocity v) (phase v)
                       (phaseIncrement v) (envelope v) 4 (envTarget v)
                       (filterState v) (lfoPhase v))) /\
    (forall i v,
       voices st !! i = Some v ->
       ~ (active v <> 0 /\ note v = n /\ envStage v <> 4) ->
       voices (noteOff st n channel) !! i = Some v) /\
    length (voices (noteOff st n channel)) = length (voices st) /\
    noteOff st n channel = set_voices st (voices (noteOff st n channel)).
Proof.
  intros M st n channel. split; [reflexivity|]. split; [|split; [|split]].
  - intros i v Hi Hm. simpl. rewrite list_lookup_fmap, Hi. simpl.
    rewrite noteOff_voice_spec. destruct (decide _); [reflexivity|tauto].
  - intros i v Hi Hm. simpl. rewrite list_lookup_fmap, Hi. simpl.
    rewrite noteOff_voice_spec. destruct (decide _); [tauto|reflexivity].
  - simpl. apply length_fmap.
  - reflexivity.
Qed.

(** ** Voice allocation *)

Lemma lt_asym (x y : float) : lt x y = true -> lt y x = false.
Proof.
  intros H. destruct (lt y x) eqn:E; [|reflexivity].
  pose proof (lt_trans _ _ _ H E) as C. rewrite lt_irrefl in C. discriminate.
Qed.

Lemma first_inactive_or_all_active (vs : list Voice) :
  all_active vs \/ exists k, first_inactive vs k.
Proof.
  induction vs as [|v vs IH]; [left; constructor|].
  destruct (decide (active v = 0)) as [Hv|Hv].
  - right. exists 0%nat. split; [exists v; auto|]. intros j u Hj. lia.
  - destruct IH as [IH|[k [[u [Hu Hu0]] Hk]]].
    + left. constructor; assumption.
    + right. exists (S k). split; [exists u; auto|].
      intros [|j] w Hj Hw; simpl in Hw.
      * congruence.
      * apply (Hk j); [lia|assumption].
Qed.

(** The search stops at the first inactive voice. *)
Lemma scan_first_inactive (vs : list Voice) :
  forall (i : Z) (ot : float) (oi : Z) (k : nat),
    first_inactive vs k ->
    exists T r, scan vs i ot oi = (i + Z.of_nat k, T, r).
Proof.
  induction vs as [|v vs IH]; intros i ot oi k [[u [Hu Hu0]] Hk].
  - discriminate.
  - destruct k as [|k]; simpl in Hu.
    + injection Hu as ->. simpl. rewrite Hu0. simpl.
      exists ot, oi. f_equal. f_equal. lia.
    + simpl. assert (active v <> 0) as Hv by (apply (Hk 0%nat); [lia|reflexivity]).
      destruct (Z.eqb_spec (active v) 0) as [?|_]; [contradiction|].
      assert (first_inactive vs k) as Hf.
      { split; [exists u; auto|]. intros j w Hj Hw.
        apply (Hk (S j)); [lia|exact Hw]. }
      destruct (lt (envelope v) ot || (i =? 0)).
      * destruct (IH (i + 1) (envelope v) i k Hf) as (T & r & ->).
        exists T, r. f_equal. f_equal. lia.
      * destruct (IH (i + 1) ot oi k Hf) as (T & r & ->).
        exists T, r. f_equal. f_equal. lia.
Qed.

(** Past index 0, over active voices, the search keeps a candidate that no
    voice seen is strictly below, and replaces it only by a strictly lower
    one. *)
Lemma scan_tail (vs : list Voice) :
  forall (i : Z) (ot : float) (oi : Z),
    0 < i -> all_active vs ->
    exists T r,
      scan vs i ot oi = (-1, T, r) /\
      (forall v, v ∈ vs -> lt (envelope v) T = false) /\
      ((T = ot /\ r = oi) \/
       (lt T ot = true /\
        exists k u, vs !! k = Some u /\ r = i + Z.of_nat k /\ envelope u = T)).
Proof.
  induction vs as [|v vs IH]; intros i ot oi Hi Hall.
  - exists ot, oi. split; [reflexivity|]. split; [|left; auto].
    intros v Hv. inversion Hv.
  - inversion Hall as [|? ? Hv Hall']; subst. simpl.
    destruct (Z.eqb_spec (active v) 0) as [?|_]; [contradiction|].
    destruct (Z.eqb_spec i 0) as [?|_]; [lia|]. rewrite orb_false_r.
    destruct (lt (envelope v) ot) eqn:E.
    + destruct (IH (i + 1) (envelope v) i ltac:(lia) Hall')
        as (T & r & Hs & Hlow & Hc).
      exists T, r. split; [exact Hs|]. split.
      * intros w [->|Hw]%elem_of_cons; [|auto].
        destruct Hc as [[-> _]|[Hlt _]]; [apply lt_irrefl|].
        apply lt_asym. exact Hlt.
      * right. destruct Hc as [[-> ->]|[Hlt (k & u & Hk & -> & Hu)]].
        -- split; [exact E|]. exists 0%nat, v. simpl. repeat split. lia.
        -- split; [exact (lt_trans _ _ _ Hlt E)|].
           exists (S k), u. simpl. repeat split; [exact Hk|lia|exact Hu].
    + destruct (IH (i + 1) ot oi ltac:(lia) Hall')
        as (T & r & Hs & Hlow & Hc).
      exists T, r. split; [exact Hs|]. split.
      * intros w [->|Hw]%elem_of_cons; [|auto].
        destruct Hc as [[-> _]|[Hlt _]]; [exact E|].
        destruct (lt (envelope v) T) eqn:E'; [|reflexivity].
        rewrite (lt_trans _ _ _ E' Hlt) in E. discriminate.
      * destruct Hc as [[-> ->]|[Hlt (k & u & Hk & -> & Hu)]]; [left; auto|].
        right. split; [exact Hlt|].
        exists (S k), u. simpl. repeat split; [exact Hk|lia|exact Hu].
Qed.

Lemma find_voice_inactive (vs : list Voice) (k : nat) :
  first_inactive vs k -> find_voice vs = Z.of_nat k.
Proof.
  intros H. unfold find_voice.
  destruct (scan_first_inactive vs 0 zero 0 k H) as (T & r & ->).
  destruct (Z.eqb_spec (0 + Z.of_nat k) (-1)); lia.
Qed.

(** With every voice active the slot chosen holds a voice that no voice is
    strictly below; it is slot 0 unless it is strictly below voice 0. *)
Lemma find_voice_steal (v0 : Voice) (vs : list Voice) :
  all_active (v0 :: vs) ->
  exists k u,
    find_voice (v0 :: vs) = Z.of_nat k /\ (v0 :: vs) !! k = Some u /\
    (forall w, w ∈ v0 :: vs -> lt (envelope w) (envelope u) = false) /\
    (k = 0%nat \/ lt (envelope u) (envelope v0) = true).
Proof.
  intros Hall. inversion Hall as [|? ? Hv Hall']; subst.
  unfold find_voice. cbn [scan].
  destruct (Z.eqb_spec (active v0) 0) as [?|_]; [contradiction|].
  change (0 =? 0) with true. rewrite orb_true_r. change (0 + 1) with 1.
  destruct (scan_tail vs 1 (envelope v0) 0 ltac:(lia) Hall')
    as (T & r & -> & Hlow & Hc).
  change (-1 =? -1) with true. cbv beta iota.
  destruct Hc as [[-> ->]|[Hlt (k & u & Hk & -> & <-)]].
  - exists 0%nat, v0. repeat split; [|left; reflexivity].
    intros w [->|Hw]%elem_of_cons; [apply lt_irrefl|auto].
  - exists (S k), u. split; [lia|]. split; [exact Hk|]. split; [|right; exact Hlt].
    intros w [->|Hw]%elem_of_cons; [apply lt_asym; exact Hlt|auto].
Qed.

(** The slot chosen by [noteOn] always exists. *)
Lemma find_voice_bound (vs : list Voice) :
  vs <> [] ->
  0 <= find_voice vs /\ (Z.to_nat (find_voice vs) < length vs)%nat.
Proof.
  intros Hne. destruct (first_inactive_or_all_active vs) as [Hall|[k Hk]].
  - destruct vs as [|v0 vs]; [congruence|].
    destruct (find_voice_steal v0 vs Hall) as (k & u & -> & Hu & _).
    apply lookup_lt_Some in Hu. lia.
  - rewrite (find_voice_inactive vs k Hk).
    destruct Hk as [[u [Hu _]] _]. apply lookup_lt_Some in Hu. lia.
Qed.

(** ** Counting active voices *)

Lemma active_count_cons (v : Voice) (vs : list Voice) :
  active_count (v :: vs)
  = if decide (active v = 0) then active_count vs else S (active_count vs).
Proof.
  unfold active_count. rewrite filter_cons.
  destruct (decide (active v <> 0)), (decide (active v = 0));
    try reflexivity; contradiction.
Qed.

Lemma active_count_le (vs : list Voice) :
  (active_count vs <= length vs)%nat.
Proof. apply length_filter. Qed.

Lemma active_count_all (vs : list Voice) :
  all_active vs -> active_count vs = length vs.
Proof.
  induction 1 as [|v vs Hv _ IH]; [reflexivity|].
  rewrite active_count_cons. destruct (decide _); [contradiction|].
  simpl. rewrite IH. reflexivity.
Qed.

Lemma active_count_inactive (vs : list Voice) (k : nat) (v : Voice) :
  vs !! k = Some v -> active v = 0 -> (active_count vs < length vs)%nat.
Proof.
  intros Hk Hv. apply (length_filter_lt _ _ v).
  - apply list_elem_of_lookup. exists k. exact Hk.
  - intros H. apply H. exact Hv.
Qed.

(** Writing an active voice into a slot adds one to the count when the
    slot was inactive and leaves the count when it was active. *)
Lemma active_count_alter (f : Voice -> Voice) (vs : list Voice) :
  forall (k : nat) (v : Voice),
    vs !! k = Some v -> active (f v) <> 0 ->
    active_count (alter f k vs)
    = if decide (active v = 0) then S (active_count vs) else active_count vs.
Proof.
  induction vs as [|x vs IH]; intros k v Hk Hf; [discriminate|].
  destruct k as [|k]; simpl in Hk.
  - injection Hk as ->.
    change (alter f 0%nat (v :: vs)) with (f v :: vs).
    rewrite !active_count_cons.
    destruct (decide (active (f v) = 0)); [contradiction|].
    destruct (decide (active v = 0)); reflexivity.
  - change (alter f (S k) (x :: vs)) with (x :: alter f k vs).
    rewrite !active_count_cons, (IH k v Hk Hf).
    destruct (decide (active x = 0)), (decide (active v = 0)); reflexivity.
Qed.

Lemma active_count_init (vs : list Voice) :
  active_count (init_voice <$> vs) = 0%nat.
Proof.
  induction vs as [|v vs IH]; [reflexivity|].
  rewrite fmap_cons, active_count_cons. simpl. exact IH.
Qed.

Section Allocation.
Context {M : Libm}.

Lemma noteOn_voices (st : state) (n vel channel : Z) :
  vel <> 0 ->
  voices (noteOn st n vel channel)
  = alter (start_voice (sampleRate st) n vel)
          (Z.to_nat (find_voice (voices st))) (voices st).
Proof.
  intros Hv. unfold noteOn.
  destruct (Z.eqb_spec vel 0); [contradiction|reflexivity].
Qed.

Lemma noteOn_length (st : state) (n vel channel : Z) :
  length (voices (noteOn st n vel channel)) = length (voices st).
Proof.
  unfold noteOn. destruct (vel =? 0); simpl.
  - apply length_fmap.
  - apply length_alter.
Qed.

(** One note-on with a non-zero velocity: one more active voice while a
    slot is free, the same number once the pool is full. *)
Lemma noteOn_count (st : state) (n vel channel : Z) :
  vel <> 0 ->
  active_count (voices (noteOn st n vel channel))
  = Nat.min (S (active_count (voices st))) (length (voices st)).
Proof.
  intros Hv. rewrite noteOn_voices by assumption.
  destruct (first_inactive_or_all_active (voices st)) as [Hall|[k Hk]].
  - pose proof (active_count_all _ Hall) as Hc.
    destruct (voices st) as [|v0 vs] eqn:E; [reflexivity|].
    destruct (find_voice_steal v0 vs Hall) as (k & u & -> & Hu & _).
    rewrite Nat2Z.id, (active_count_alter _ _ k u Hu) by (simpl; lia).
    assert (active u <> 0) as Hua.
    { unfold all_active in Hall. rewrite Forall_forall in Hall. apply Hall.
      apply list_elem_of_lookup. exists k. exact Hu. }
    destruct (decide (active u = 0)); [contradiction|]. lia.
  - rewrite (find_voice_inactive _ k Hk), Nat2Z.id.
    destruct Hk as [[u [Hu Hu0]] _].
    rewrite (active_count_alter _ _ k u Hu) by (simpl; lia).
    destruct (decide (active u = 0)); [|contradiction].
    pose proof (active_count_inactive _ _ _ Hu Hu0). lia.
Qed.

Lemma play_length (notes : list (Z * Z * Z)) :
  forall st, length (voices (play st notes)) = length (voices st).
Proof.
  induction notes as [|e es IH]; intros st; [reflexivity|].
  unfold play in *. cbn [foldl]. rewrite IH. apply noteOn_length.
Qed.

Lemma play_count (notes : list (Z * Z * Z)) :
  forall st,
    Forall (fun e => snd (fst e) <> 0) notes ->
    active_count (voices (play st notes))
    = Nat.min (active_count (voices st) + length notes) (length (voices st)).
Proof.
  induction notes as [|e es IH]; intros st Hnz.
  - simpl. pose proof (active_count_le (voices st)). lia.
  - inversion Hnz as [|? ? He Hes]; subst.
    unfold play in *. cbn [foldl]. rewrite (IH _ Hes).
    rewrite noteOn_count, noteOn_length by assumption.
    change (length (e :: es)) with (S (length es)). lia.
Qed.

End Allocation.

(** C3.  For a pool of 16 voices and note-ons with non-zero velocity only:
    the number of active voices never exceeds 16, grows by one per note-on
    until the pool is full, so [k] note-ons after [init] leave
    min(k, 16) active voices (17 leave exactly 16).  One note-on rewrites
    exactly one slot.  When some voice is inactive, that slot is the
    lowest-indexed inactive one.  When every voice is active, the slot
    holds a voice whose envelope level no voice is strictly below, and it
    is slot 0 unless its level is strictly below that of voice 0: the first
    iteration of the search makes voice 0 the candidate whatever its level
    and whatever the candidate values before. *)
Theorem C3_voice_pool :
  forall {M : Libm} (st : state) (notes : list (Z * Z * Z))
         (sr : float) (bs n vel channel : Z),
    wf st -> Forall (fun e => snd (fst e) <> 0) notes -> vel <> 0 ->
    let k := Z.to_nat (find_voice (voices st)) in
    (* capacity *)
    (active_count (voices (play st notes)) <= 16)%nat /\
    active_count (voices (play st notes))
    = Nat.min (active_count (voices st) + length notes) 16 /\
    active_count (voices (play (init st sr bs) notes))
    = Nat.min (length notes) 16 /\
    (* one slot is rewritten *)
    voices (noteOn st n vel channel)
    = alter (start_voice (sampleRate st) n vel) k (voices st) /\
    (k < 16)%nat /\
    (* an inactive slot is preferred, the lowest one *)
    (forall j, first_inactive (voices st) j -> k = j) /\
    (* otherwise the lowest envelope level is stolen *)
    (all_active (voices st) ->
     exists u v0,
       voices st !! k = Some u /\ voices st !! 0%nat = Some v0 /\
       (forall j w, voices st !! j = Some w ->
                    lt (envelope w) (envelope u) = false) /\
       (k = 0%nat \/ lt (envelope u) (envelope v0) = true)) /\
    (* the first iteration of the search *)
    (forall v vs ot oi,
       active v <> 0 -> scan (v :: vs) 0 ot oi = scan vs 1 (envelope v) 0).
Proof.
  intros M st notes sr bs n vel channel [Hlen Hps] Hnz Hvel. cbv zeta.
  unfold MAX_VOICES in Hlen.
  assert (voices st <> []) as Hne by (intros E; rewrite E in Hlen; discriminate).
  split; [|split; [|split; [|split; [|split; [|split; [|split]]]]]].
  - pose proof (active_count_le (voices (play st notes))) as H.
    rewrite play_length in H. lia.
  - rewrite play_count, Hlen by assumption. reflexivity.
  - rewrite play_count by assumption. simpl.
    rewrite active_count_init, length_fmap, Hlen. reflexivity.
  - apply noteOn_voices. exact Hvel.
  - destruct (find_voice_bound _ Hne). lia.
  - intros j Hj. rewrite (find_voice_inactive _ j Hj). lia.
  - intros Hall. destruct (voices st) as [|v0 vs] eqn:E; [congruence|].
    destruct (find_voice_steal v0 vs Hall) as (k & u & -> & Hu & Hlow & H0).
    rewrite Nat2Z.id. exists u, v0. split; [exact Hu|]. split; [reflexivity|].
    split; [|exact H0].
    intros j w Hw. apply Hlow. apply list_elem_of_lookup. exists j. exact Hw.
  - intros v vs ot oi Hv. cbn [scan].
    destruct (Z.eqb_spec (active v) 0); [contradiction|].
    change (0 =? 0) with true. rewrite orb_true_r. reflexivity.
Qed.

Lemma wf_initial : wf initial.
Proof. split; reflexivity. Qed.

Lemma C3_voice_pool_witness :
  (* 17 note-ons after init: exactly 16 active voices *)
  active_count
    (voices (play (M := linear_libm) (init initial (of_int 44100) 128)
                  (replicate 17 (60, 100, 0))))
  = 16%nat /\
  (* the first note-on takes slot 0, the lowest inactive slot *)
  voices (noteOn (M := linear_libm) initial 60 100 0)
  = alter (start_voice (M := linear_libm) (of_int 44100) 60 100) 0%nat
          (voices initial).
Proof.
  pose proof (C3_voice_pool (M := linear_libm) initial
                (replicate 17 (60, 100, 0)) (of_int 44100) 128 60 100 0
                wf_initial) as H.
  assert (Forall (fun e : Z * Z * Z => snd (fst e) <> 0)
                 (replicate 17 (60, 100, 0))) as Hnz
    by (repeat constructor; simpl; lia).
  assert (100 <> 0) as Hvel by lia.
  specialize (H Hnz Hvel). cbv zeta in H.
  destruct H as (_ & _ & Hinit & Hslot & _).
  split; [exact Hinit | exact Hslot].
Defined.

Lemma C7_noteOff_releases_matching_voices_witness :
  (* two voices on note 60 and one on note 64: note-off of 60 releases the
     two and leaves the third *)
  let st := play (M := linear_libm) initial
                 [(60, 100, 0); (64, 100, 0); (60, 90, 0)] in
  (envStage <$> voices (noteOff st 60 0)) !! 0%nat = Some 4 /\
  (envStage <$> voices (noteOff st 60 0)) !! 2%nat = Some 4 /\
  voices (noteOff st 60 0) !! 1%nat = voices st !! 1%nat.
Proof.
  cbv zeta.
  destruct (C7_noteOff_releases_matching_voices (M := linear_libm)
              (play (M := linear_libm) initial
                    [(60, 100, 0); (64, 100, 0); (60, 90, 0)]) 60 0)
    as (_ & Hrel & Hkeep & _).
  split; [|split].
  - rewrite list_lookup_fmap, (Hrel 0%nat _ eq_refl); [reflexivity|].
    simpl. lia.
  - rewrite list_lookup_fmap, (Hrel 2%nat _ eq_refl); [reflexivity|].
    simpl. lia.
  - rewrite (Hkeep 1%nat _ eq_refl); [reflexivity|]. simpl. lia.
Defined.

(** ** MIDI values *)

(** The quotient of a 7-bit value by 127 lies in [0,1]. *)
Lemma div127_in_range (z : Z) :
  0 <= z <= 127 -> in_range (div (of_int z) (of_int 127)) zero one = true.
Proof.
  intros Hz.
  assert (forallb (fun k => in_range (div (of_int (Z.of_nat k)) (of_int 127))
                                     zero one) (seq 0 128) = true) as H
    by (vm_compute; reflexivity).
  rewrite forallb_forall in H. specialize (H (Z.to_nat z)).
  rewrite Z2Nat.id in H by lia. apply H. apply in_seq. lia.
Qed.

(** C9, as stated, fails: nothing in [noteOn] or [controlChange] clamps.
    A note-on with velocity 200 starts a voice whose velocity 200/127 is
    above 1, control change 1 with value 200 sets the mod wheel above 1,
    and control change 7 with value -1 sets the master volume below 0. *)
Lemma C9_counterexample :
  (exists v,
     voices (noteOn (M := linear_libm) initial 60 200 0) !! 0%nat = Some v /\
     velocity v = div (of_int 200) (of_int 127) /\
     le (velocity v) one = false) /\
  le (modWheel (controlChange initial 1 200 0)) one
  = false /\
  le zero (masterVolume (controlChange initial 7 (-1) 0))
  = false.
Proof.
  split; [|split]; [|vm_compute; reflexivity..].
  eexists. split; [reflexivity|]. split; vm_compute; reflexivity.
Qed.

(** C9, amended.  [noteOn] and [controlChange] neither reject nor clamp
    MIDI input outside 0..127, they scale it: for every note number and
    every velocity other than 0 a note-on starts a voice with
    velocity = velocity/127, and for every control value control changes 1
    and 7 store value/127 in the mod wheel and the master volume.  The
    stored values lie in [0,1] when the incoming velocity is in 1..127 and
    the control value in 0..127. *)
Theorem C9_midi_values_scaled :
  forall {M : Libm} (st : state) (n vel value channel : Z),
    wf st -> vel <> 0 ->
    let k := Z.to_nat (find_voice (voices st)) in
    (exists v,
       voices (noteOn st n vel channel) !! k = Some v /\
       velocity v = div (of_int vel) (of_int 127) /\
       (1 <= vel <= 127 -> in_range (velocity v) zero one = true)) /\
    modWheel (controlChange st 1 value channel)
    = div (of_int value) (of_int 127) /\
    masterVolume (controlChange st 7 value channel)
    = div (of_int value) (of_int 127) /\
    (0 <= value <= 127 ->
     in_range (modWheel (controlChange st 1 value channel)) zero one = true /\
     in_range (masterVolume (controlChange st 7 value channel)) zero one
     = true).
Proof.
  intros M st n vel value channel [Hlen _] Hvel. cbv zeta.
  assert (voices st <> []) as Hne by (intros E; rewrite E in Hlen; discriminate).
  destruct (find_voice_bound _ Hne) as [_ Hk].
  apply lookup_lt_is_Some_2 in Hk. destruct Hk as [u Hu].
  split; [|split; [|split]].
  - exists (start_voice (sampleRate st) n vel u).
    rewrite noteOn_voices, list_lookup_alter_eq, Hu by assumption.
    split; [reflexivity|]. split; [reflexivity|].
    intros Hr. apply div127_in_range. lia.
  - reflexivity.
  - reflexivity.
  - intros Hr. split; apply div127_in_range; exact Hr.
Qed.

Lemma C9_midi_values_scaled_witness :
  (exists v,
     voices (noteOn (M := linear_libm) initial 69 127 0) !! 0%nat = Some v /\
     velocity v = div (of_int 127) (of_int 127) /\
     in_range (velocity v) zero one = true) /\
  in_range (modWheel (controlChange initial 1 64 0))
           zero one = true.
Proof.
  destruct (C9_midi_values_scaled (M := linear_libm) initial 69 127 64 0
              wf_initial ltac:(lia)) as ((v & Hv & Hq & Hr) & _ & _ & Hcc).
  split.
  - exists v. split; [exact Hv|]. split; [exact Hq|]. apply Hr. lia.
  - apply Hcc. lia.
Defined.

(** ** One sample of one voice *)

Ltac case_stage :=
  repeat match goal with
         | |- context [match ?x with _ => _ end] => destruct x
         end.

(** The envelope update keeps the voice invariant: the only transition to
    stage 0 also clears [active], and no other transition touches it. *)
Lemma updateEnvelope_inv (ps : list float) (sr : float) (v : Voice) :
  voice_inv v -> voice_inv (updateEnvelope ps sr v).
Proof.
  destruct v as [a n vel ph inc env stg tgt fs lfo].
  unfold voice_inv, updateEnvelope.
  cbn -[add sub mul div le ge lit one zero load].
  intros H. case_stage; cbn -[add sub mul div le ge lit one zero load];
    try exact H; split; intros; try reflexivity;
    try (exfalso; lia); try (apply H; lia); try (apply H in H0; lia).
Qed.

(** The envelope update reads and writes [active], [envStage] and
    [envelope] only. *)
Lemma updateEnvelope_congr (ps : list float) (sr : float) (v v' : Voice) :
  active v = active v' -> envStage v = envStage v' ->
  envelope v = envelope v' ->
  active (updateEnvelope ps sr v) = active (updateEnvelope ps sr v') /\
  envStage (updateEnvelope ps sr v) = envStage (updateEnvelope ps sr v') /\
  envelope (updateEnvelope ps sr v) = envelope (updateEnvelope ps sr v').
Proof.
  destruct v as [a n vel ph inc env stg tgt fs lfo].
  destruct v' as [a' n' vel' ph' inc' env' stg' tgt' fs' lfo'].
  cbn [active envStage envelope]. intros <- <- <-.
  unfold updateEnvelope.
  cbn -[add sub mul div le ge lit one zero load].
  case_stage; cbn; auto.
Qed.

Section Process.
Context {M : Libm}.

(** The oscillator advances the phase and nothing else. *)
Lemma generateOscillator_fields (v : Voice) (waveform ns : Z) :
  let v' := fst (fst (generateOscillator v waveform ns)) in
  active v' = active v /\ envStage v' = envStage v /\
  envelope v' = envelope v /\ velocity v' = velocity v /\
  filterState v' = filterState v.
Proof.
  cbv zeta. unfold generateOscillator.
  match goal with
  | |- context [let '(_, _) := ?m in _] => destruct m as [ns' sample]
  end.
  cbn -[add sub ge one]. destruct (ge _ one); cbn; auto.
Qed.

Lemma processFilter_fields (ps : list float) (sr : float) (v : Voice)
    (x : float) :
  let v' := fst (processFilter ps sr v x) in
  active v' = active v /\ envStage v' = envStage v /\
  envelope v' = envelope v /\ velocity v' = velocity v.
Proof. cbv zeta. unfold processFilter. cbn. auto. Qed.

(** The body of the voice loop: the term it adds to the mix uses the
    level the voice had on entry; the voice it leaves has the level the
    envelope update gives. *)
Lemma voice_body_spec (ps : list float) (sr pb detune : float)
    (waveform : Z) (v : Voice) (ns : Z) :
  let r := voice_body ps sr pb detune waveform v ns in
  let fr := voice_filtered ps sr pb detune waveform v ns in
  snd r = mul (mul (fst fr) (envelope v)) (velocity v) /\
  snd (fst r) = snd fr /\
  active (fst (fst r)) = active (updateEnvelope ps sr v) /\
  envStage (fst (fst r)) = envStage (updateEnvelope ps sr v) /\
  envelope (fst (fst r)) = envelope (updateEnvelope ps sr v).
Proof.
  cbv zeta. unfold voice_body, voice_filtered.
  match goal with
  | |- context [generateOscillator ?v0 _ _] =>
      pose proof (generateOscillator_fields v0 waveform ns) as Ho;
      destruct (generateOscillator v0 waveform ns) as [[v1 ns1] osc]
  end.
  cbv zeta in Ho. cbn [fst snd] in Ho.
  cbn [active envStage envelope velocity set_phaseIncrement] in Ho.
  destruct Ho as (Ha & Hs & He & Hv & _).
  pose proof (processFilter_fields ps sr v1 osc) as Hf. cbv zeta in Hf.
  destruct (processFilter ps sr v1 osc) as [v2 filtered].
  cbn [fst snd] in *. destruct Hf as (Ha2 & Hs2 & He2 & Hv2).
  split; [congruence|]. split; [reflexivity|].
  apply updateEnvelope_congr; congruence.
Qed.

Lemma voice_loop_spec (ps : list float) (sr pb detune : float) (waveform : Z)
    (vs : list Voice) :
  forall (ns : Z) (s0 : float),
    let r := voice_loop ps sr pb detune waveform vs ns s0 in
    snd r = foldl add s0 (mix_terms ps sr pb detune waveform vs ns) /\
    (Forall voice_inv vs -> Forall voice_inv (fst (fst r))) /\
    envelope <$> fst (fst r) = level_after ps sr <$> vs.
Proof.
  induction vs as [|v vs IH]; intros ns s0; cbv zeta.
  - cbn. auto.
  - cbn [voice_loop mix_terms]. unfold level_after at 1. rewrite fmap_cons.
    destruct (active v =? 0) eqn:Ea.
    + specialize (IH ns s0). cbv zeta in IH.
      destruct (voice_loop ps sr pb detune waveform vs ns s0)
        as [[vs' ns'] s'].
      cbn [fst snd] in *. destruct IH as (Hs & Hi & He).
      split; [exact Hs|]. split.
      * intros H. inversion H; subst. constructor; auto.
      * rewrite fmap_cons, He. reflexivity.
    + pose proof (voice_body_spec ps sr pb detune waveform v ns) as Hb.
      cbv zeta in Hb.
      destruct (voice_body ps sr pb detune waveform v ns)
        as [[v' ns1] voiced].
      destruct (voice_filtered ps sr pb detune waveform v ns) as [f ns1'].
      cbn [fst snd] in Hb. destruct Hb as (-> & -> & Ha & Hst & Hl).
      specialize (IH ns1' (add s0 (mul (mul f (envelope v)) (velocity v)))).
      cbv zeta in IH.
      destruct (voice_loop ps sr pb detune waveform vs ns1' _)
        as [[vs' ns'] s'].
      cbn [fst snd foldl] in *. destruct IH as (Hs & Hi & He).
      split; [exact Hs|]. split.
      * intros H. inversion H as [|? ? Hv Hvs]; subst. constructor; auto.
        pose proof (updateEnvelope_inv ps sr v Hv) as Hu.
        unfold voice_inv in *. rewrite Ha, Hst. exact Hu.
      * rewrite fmap_cons, He, Hl. reflexivity.
Qed.

(** ** One sample of the pool *)

Lemma sample_step_spec (waveform : Z) (detune : float) (st : state) :
  let r := sample_step waveform detune st in
  snd r = mix_spec waveform detune st /\
  (pool_inv st -> pool_inv (fst r)) /\
  envelope <$> voices (fst r)
  = level_after (params st) (sampleRate st) <$> voices st /\
  params (fst r) = params st /\ sampleRate (fst r) = sampleRate st /\
  masterVolume (fst r) = masterVolume st /\
  pitchBendValue (fst r) = pitchBendValue st.
Proof.
  cbv zeta. unfold sample_step, mix_spec, pool_inv.
  pose proof (voice_loop_spec (params st) (sampleRate st) (pitchBendValue st)
                detune waveform (voices st) (noiseState st) zero) as H.
  cbv zeta in H.
  destruct (voice_loop _ _ _ _ _ _ _ _) as [[vs ns] sample].
  cbn [fst snd voices params sampleRate masterVolume pitchBendValue] in *.
  destruct H as (-> & Hi & He). auto 10.
Qed.

(** The state after [n] samples does not depend on the output buffer. *)
Lemma process_loop_S (waveform : Z) (detune : float) (n : nat)
    (acc : state * list float) :
  process_loop waveform detune (S n) acc
  = (fst (sample_step waveform detune
            (fst (process_loop waveform detune n acc))),
     <[(n * 2 + 1)%nat :=
         snd (sample_step waveform detune
                (fst (process_loop waveform detune n acc)))]>
       (<[(n * 2)%nat :=
            snd (sample_step waveform detune
                   (fst (process_loop waveform detune n acc)))]>
          (snd (process_loop waveform detune n acc)))).
Proof.
  unfold process_loop. rewrite foldl_seq_S.
  destruct (foldl _ acc (seq 0 n)) as [st out]. cbn [Nat.add fst snd].
  destruct (sample_step waveform detune st) as [st' sample]. reflexivity.
Qed.

Lemma process_loop_state (waveform : Z) (detune : float) (n : nat)
    (st : state) (out : list float) :
  fst (process_loop waveform detune n (st, out))
  = Nat.iter n (fun s => fst (sample_step waveform detune s)) st.
Proof.
  induction n as [|n IH]; [reflexivity|].
  rewrite process_loop_S, Nat.iter_succ. cbn [fst]. rewrite IH.
  reflexivity.
Qed.

Lemma process_loop_length (waveform : Z) (detune : float) (n : nat)
    (acc : state * list float) :
  length (snd (process_loop waveform detune n acc)) = length (snd acc).
Proof.
  induction n as [|n IH]; [reflexivity|].
  rewrite process_loop_S. cbn [snd]. rewrite !length_insert. exact IH.
Qed.

(** Sample [i] is written to cells [2i] and [2i+1] and stays there. *)
Lemma process_loop_cells (waveform : Z) (detune : float) (n i : nat)
    (st : state) (out : list float) :
  (i < n)%nat -> (i * 2 + 1 < length out)%nat ->
  let sample :=
    snd (sample_step waveform detune
           (Nat.iter i (fun s => fst (sample_step waveform detune s)) st)) in
  snd (process_loop waveform detune n (st, out)) !! (i * 2)%nat = Some sample /\
  snd (process_loop waveform detune n (st, out)) !! (i * 2 + 1)%nat
  = Some sample.
Proof.
  intros Hi Hlen. cbv zeta. induction n as [|n IH]; [lia|].
  rewrite process_loop_S. cbn [snd].
  pose proof (process_loop_length waveform detune n (st, out)) as L.
  cbn [snd] in L.
  destruct (decide (i = n)) as [->|Hne].
  - rewrite process_loop_state. split.
    + rewrite list_lookup_insert_ne by lia.
      apply list_lookup_insert_eq. lia.
    + apply list_lookup_insert_eq. rewrite length_insert. lia.
  - rewrite !list_lookup_insert_ne by lia. apply IH. lia.
Qed.

Lemma memset_zero_length (output : list float) (n : nat) :
  length (memset_zero output n) = length output.
Proof.
  unfold memset_zero.
  apply (foldl_seq_invariant (fun o => length o = length output));
    [reflexivity|].
  intros o i _ Ho. rewrite length_insert. exact Ho.
Qed.

(** A call with a sample count that is not negative returns. *)
Lemma process_returns (st : state) (input output : list float) (n : Z) :
  0 <= n ->
  process st input output n
  = Some (process_loop (to_int (load (params st) 0)) (load (params st) 7)
            (Z.to_nat n)
            (st, memset_zero output (Z.to_nat n * NUM_CHANNELS))).
Proof.
  intros Hn. unfold process.
  destruct (Z.ltb_spec n 0) as [Hlt|_]; [lia|reflexivity].
Qed.

(** A call with a negative sample count does not. *)
Lemma process_negative (st : state) (input output : list float) (n : Z) :
  n < 0 -> process st input output n = None.
Proof.
  intros Hn. unfold process.
  destruct (Z.ltb_spec n 0) as [_|Hge]; [reflexivity|lia].
Qed.

Lemma process_state (st : state) (input output : list float) (n : nat) :
  exists out,
    process st input output (Z.of_nat n)
    = Some (Nat.iter n (fun s => fst (sample_step (to_int (load (params st) 0))
                                                   (load (params st) 7) s)) st,
            out).
Proof.
  rewrite process_returns by lia. rewrite Nat2Z.id.
  rewrite <- process_loop_state
    with (out := memset_zero output (n * NUM_CHANNELS)).
  destruct (process_loop _ _ _ _) as [s o]. exists o. reflexivity.
Qed.

Lemma iter_globals (waveform : Z) (detune : float) (n : nat) (st : state) :
  let st' := Nat.iter n (fun s => fst (sample_step waveform detune s)) st in
  params st' = params st /\ sampleRate st' = sampleRate st /\
  masterVolume st' = masterVolume st /\
  pitchBendValue st' = pitchBendValue st /\
  (pool_inv st -> pool_inv st').
Proof.
  cbv zeta. induction n as [|n (Hp & Hs & Hm & Hb & Hi)]; [auto 10|].
  rewrite Nat.iter_succ.
  destruct (sample_step_spec waveform detune
              (Nat.iter n (fun s => fst (sample_step waveform detune s)) st))
    as (_ & Hi' & _ & -> & -> & -> & ->).
  auto 10.
Qed.

End Process.

(** C5.  For every sample index [i] of the instrument's [process], both
    cells of the stereo pair hold tanh(masterVolume * S), where S is the
    sum, taken in voice order over the voices active before the sample, of
    filteredOutput * envelopeLevel * velocity with the envelope level the
    voice has before the sample; the levels found after the sample are
    those the envelope update gives (one-sample lag).  The parameters,
    sample rate and master volume are those of the call.  [before] and
    [after] are the states the call leaves when it is made for [i] and for
    [i + 1] samples; the three calls return. *)
Theorem C5_process_mix :
  forall {M : Libm} (st : state) (input output : list float)
         (numSamples : Z) (i : nat),
    (i < Z.to_nat numSamples)%nat -> (i * 2 + 1 < length output)%nat ->
    let waveform := to_int (load (params st) 0) in
    let detune := load (params st) 7 in
    exists (before after st' : state) (o1 o2 out : list float),
      process st input output (Z.of_nat i) = Some (before, o1) /\
      process st input output (Z.of_nat (S i)) = Some (after, o2) /\
      process st input output numSamples = Some (st', out) /\
      let S := foldl add zero
                 (mix_terms (params st) (sampleRate st) (pitchBendValue st)
                            detune waveform (voices before)
                            (noiseState before)) in
      out !! (i * 2)%nat = Some (tanhf (mul (masterVolume st) S)) /\
      out !! (i * 2 + 1)%nat = Some (tanhf (mul (masterVolume st) S)) /\
      envelope <$> voices after
      = level_after (params st) (sampleRate st) <$> voices before.
Proof.
  intros M st input output numSamples i Hi Hlen. cbv zeta.
  destruct (process_state st input output i) as [o1 E1].
  destruct (process_state st input output (S i)) as [o2 E2].
  set (w := to_int (load (params st) 0)) in *.
  set (d := load (params st) 7) in *.
  destruct (process_loop w d (Z.to_nat numSamples)
              (st, memset_zero output (Z.to_nat numSamples * NUM_CHANNELS)))
    as [st' out] eqn:E.
  exists (Nat.iter i (fun s => fst (sample_step w d s)) st),
         (Nat.iter (S i) (fun s => fst (sample_step w d s)) st),
         st', o1, o2, out.
  split; [exact E1|]. split; [exact E2|].
  split; [rewrite process_returns by lia; fold w d; rewrite E; reflexivity|].
  destruct (process_loop_cells w d (Z.to_nat numSamples) i st
              (memset_zero output (Z.to_nat numSamples * NUM_CHANNELS)) Hi)
    as [H0 H1]; [rewrite memset_zero_length; exact Hlen|].
  rewrite E in H0, H1. cbn [snd] in H0, H1.
  destruct (iter_globals w d i st) as (Hp & Hs & Hm & Hb & _).
  destruct (sample_step_spec w d
              (Nat.iter i (fun s => fst (sample_step w d s)) st))
    as (Hmix & _ & Hlev & _).
  rewrite Hmix in H0, H1. unfold mix_spec in H0, H1.
  rewrite Hp, Hs, Hm, Hb in H0, H1. rewrite Hp, Hs in Hlev.
  rewrite (mul_comm _ (masterVolume st)) in H0, H1.
  split; [exact H0|]. split; [exact H1|]. exact Hlev.
Qed.

Lemma C5_process_mix_witness :
  (* the first sample after a note-on: the voice enters the mix with the
     level 0 it has before the sample, although its level after the sample
     is already positive *)
  let st := noteOn (M := linear_libm) initial 69 127 0 in
  exists (after st' : state) (o2 out : list float),
    process (M := linear_libm) st [] [one; one; one; one] 2
    = Some (st', out) /\
    out !! 0%nat = Some (S754_zero false) /\
    process (M := linear_libm) st [] [one; one; one; one] 1
    = Some (after, o2) /\
    (envelope <$> voices after) !! 0%nat
    = Some (S754_finite false 9739155 (-32)).
Proof.
  cbv zeta.
  destruct (C5_process_mix (M := linear_libm)
              (noteOn (M := linear_libm) initial 69 127 0) []
              [one; one; one; one] 2 0)
    as (before & after & st' & o1 & o2 & out & Eb & Ea & E & H0 & _ & Hl);
    [simpl; lia | simpl; lia |].
  exists after, st', o2, out.
  split; [exact E|]. injection Eb as <- _.
  split; [|split; [exact Ea|]].
  - refine (eq_trans H0 _). vm_compute. reflexivity.
  - refine (eq_trans (f_equal (fun l => l !! 0%nat) Hl) _).
    vm_compute. reflexivity.
Defined.

(** ** The voice invariant *)

Lemma noteOff_voice_inv (n : Z) (v : Voice) :
  voice_inv v -> voice_inv (noteOff_voice n v).
Proof.
  intros H. rewrite noteOff_voice_spec.
  destruct (decide _) as [(Ha & _ & _)|_]; [|exact H].
  unfold voice_inv. simpl. split; intros; [contradiction|discriminate].
Qed.

Lemma reset_inv (st : state) : pool_inv (reset st).
Proof.
  unfold pool_inv. simpl. apply Forall_fmap, Forall_forall.
  intros v _. split; reflexivity.
Qed.

(** C4.  For every voice, [active == 0] exactly when [envStage == 0]:
    this holds for the static initial state, after [init] and after
    [reset], and it is kept by [process] (which returns for every sample
    count that is not negative), [noteOn], [noteOff], [controlChange] (any
    controller number, 123 included), [pitchBend] and [setParameter]. *)
Theorem C4_voice_invariant :
  forall {M : Libm} (st : state) (sr x : float)
         (bs numSamples n vel channel cc value index : Z)
         (input output : list float),
    pool_inv initial /\
    pool_inv (init st sr bs) /\
    pool_inv (reset st) /\
    (pool_inv st ->
     (0 <= numSamples ->
      exists st' out,
        process st input output numSamples = Some (st', out) /\
        pool_inv st') /\
     pool_inv (noteOn st n vel channel) /\
     pool_inv (noteOff st n channel) /\
     pool_inv (controlChange st cc value channel) /\
     pool_inv (pitchBend st value channel) /\
     pool_inv (setParameter st index x)).
Proof.
  intros. split; [|split; [|split]].
  - unfold pool_inv, initial. cbn [voices]. apply Forall_forall.
    intros v [-> _]%elem_of_replicate. split; reflexivity.
  - unfold pool_inv. simpl. apply Forall_fmap, Forall_forall.
    intros v _. split; reflexivity.
  - apply reset_inv.
  - intros Hinv.
    assert (pool_inv (noteOff st n channel)) as Hoff.
    { unfold pool_inv in *. simpl. apply Forall_fmap.
      eapply Forall_impl; [exact Hinv|]. intros v. apply noteOff_voice_inv. }
    split; [|split; [|split; [|split; [|split]]]].
    + intros Hn. rewrite process_returns by exact Hn.
      destruct (process_loop _ _ _ _) as [st' out] eqn:E.
      exists st', out. split; [reflexivity|].
      apply (f_equal fst) in E. rewrite process_loop_state in E.
      cbn [fst] in E. subst st'. apply iter_globals. exact Hinv.
    + unfold noteOn. destruct (vel =? 0); [exact Hoff|].
      unfold pool_inv in *. simpl. apply Forall_alter; [exact Hinv|].
      intros v _ _. split; discriminate.
    + exact Hoff.
    + unfold controlChange. case_stage; try exact Hinv. apply reset_inv.
    + exact Hinv.
    + unfold setParameter.
      destruct ((0 <=? index) && (index <? NUM_PARAMETERS)); [|exact Hinv].
      case_stage; exact Hinv.
Qed.

Lemma C4_voice_invariant_witness :
  pool_inv (noteOn (M := linear_libm) initial 69 127 0) /\
  exists st' out,
    process (M := linear_libm)
      (noteOn (M := linear_libm) initial 69 127 0) []
      [zero; zero; zero; zero] 2 = Some (st', out) /\
    pool_inv st'.
Proof.
  destruct (C4_voice_invariant (M := linear_libm) initial zero zero
              0 0 69 127 0 0 0 0 [] []) as (Hinit & _ & _ & Hkeep).
  destruct (Hkeep Hinit) as (_ & Hon & _).
  split; [exact Hon|].
  destruct (C4_voice_invariant (M := linear_libm)
              (noteOn (M := linear_libm) initial 69 127 0) zero zero
              0 2 0 0 0 0 0 0 [] [zero; zero; zero; zero])
    as (_ & _ & _ & Hkeep').
  destruct (Hkeep' Hon) as (Hproc & _). apply Hproc. lia.
Defined.

End InstrumentFacts.

(* ====================================================================== *)
(** * Further properties of the parameter functions *)
(* ====================================================================== *)

Module ParamExtras.
Import F32 F32Facts ClampFacts.

Lemma is_nan_eq (v : float) : is_nan v = true -> v = nan.
Proof. destruct v; try discriminate; reflexivity. Qed.

(** Clamping twice is clamping once. *)
Lemma clamp_idempotent (v lo hi : float) :
  le lo hi = true ->
  Effect.clamp (Effect.clamp v lo hi) lo hi = Effect.clamp v lo hi.
Proof.
  intros Hlh. destruct (is_nan v) eqn:Hv.
  - rewrite (is_nan_eq v Hv), !clamp_nan. reflexivity.
  - apply clamp_id, clamp_in_range; assumption.
Qed.

Ltac effect_index i H :=
  let C := fresh "C" in
  assert (i = 0 \/ i = 1 \/ i = 2 \/ i = 3) as C
    by (unfold Effect.NUM_PARAMETERS in H; lia);
  destruct C as [->|[->|[->| ->]]].

Ltac instrument_index i H :=
  let C := fresh "C" in
  assert (i = 0 \/ i = 1 \/ i = 2 \/ i = 3 \/
          i = 4 \/ i = 5 \/ i = 6 \/ i = 7) as C
    by (unfold Instrument.NUM_PARAMETERS in H; lia);
  destruct C as [->|[->|[->|[->|[->|[->|[->| ->]]]]]]].

Ltac guard_cases i :=
  match goal with
  | |- context [(0 <=? i) && (i <? ?N)] =>
      let G := fresh "G" in
      destruct ((0 <=? i) && (i <? N)) eqn:G;
      [apply andb_true_iff in G;
       rewrite Z.leb_le, Z.ltb_lt in G|]
  end.

(** Setting one parameter leaves every other parameter as it was, and
    touches nothing but the parameter table: every other variable of the
    plugin keeps its value (for the effect the filter states, the sample
    rate and the buffer size; for the instrument the voices, the sample
    rate, the buffer size, the master volume, the pitch bend, the mod
    wheel and the noise generator state), and the table keeps its
    length. *)
Theorem setParameter_leaves_others :
  forall (e : Effect.state) (s : Instrument.state) (i j : Z) (v : float),
    i <> j ->
    (Effect.getParameter (Effect.setParameter e i v) j
     = Effect.getParameter e j /\
     Effect.filterState (Effect.setParameter e i v) = Effect.filterState e /\
     Effect.sampleRate (Effect.setParameter e i v) = Effect.sampleRate e /\
     Effect.bufferSize (Effect.setParameter e i v) = Effect.bufferSize e /\
     length (Effect.params (Effect.setParameter e i v))
     = length (Effect.params e)) /\
    (Instrument.getParameter (Instrument.setParameter s i v) j
     = Instrument.getParameter s j /\
     Instrument.voices (Instrument.setParameter s i v) = Instrument.voices s /\
     Instrument.sampleRate (Instrument.setParameter s i v)
     = Instrument.sampleRate s /\
     Instrument.bufferSize (Instrument.setParameter s i v)
     = Instrument.bufferSize s /\
     Instrument.masterVolume (Instrument.setParameter s i v)
     = Instrument.masterVolume s /\
     Instrument.pitchBendValue (Instrument.setParameter s i v)
     = Instrument.pitchBendValue s /\
     Instrument.modWheel (Instrument.setParameter s i v)
     = Instrument.modWheel s /\
     Instrument.noiseState (Instrument.setParameter s i v)
     = Instrument.noiseState s /\
     length (Instrument.params (Instrument.setParameter s i v))
     = length (Instrument.params s)).
Proof.
  intros e s i j v Hij. split.
  - unfold Effect.setParameter. guard_cases i; [|auto 6].
    effect_index i G; unfold Effect.set_params;
      cbn [Effect.filterState Effect.sampleRate Effect.bufferSize];
      (split; [|cbn [Effect.params]; rewrite length_insert; auto 6]);
      unfold Effect.getParameter; cbn [Effect.params Effect.set_params];
      destruct ((0 <=? j) && (j <? Effect.NUM_PARAMETERS)) eqn:Gj;
      try reflexivity;
      apply andb_true_iff in Gj; rewrite Z.leb_le, Z.ltb_lt in Gj;
      unfold Effect.load; rewrite list_lookup_insert_ne by lia; reflexivity.
  - unfold Instrument.setParameter. guard_cases i; [|auto 10].
    instrument_index i G; unfold Instrument.set_params;
      cbn [Instrument.voices Instrument.masterVolume
           Instrument.pitchBendValue Instrument.noiseState
           Instrument.sampleRate Instrument.bufferSize Instrument.modWheel];
      (split; [|cbn [Instrument.params]; rewrite length_insert; auto 10]);
      unfold Instrument.getParameter;
      cbn [Instrument.params Instrument.set_params];
      destruct ((0 <=? j) && (j <? Instrument.NUM_PARAMETERS)) eqn:Gj;
      try reflexivity;
      apply andb_true_iff in Gj; rewrite Z.leb_le, Z.ltb_lt in Gj;
      unfold Instrument.load; rewrite list_lookup_insert_ne by lia;
      reflexivity.
Qed.

Lemma setParameter_leaves_others_witness :
  Effect.getParameter (Effect.setParameter Effect.initial 0 two) 2
  = Effect.getParameter Effect.initial 2 /\
  Instrument.getParameter (Instrument.setParameter Instrument.initial 5 two) 3
  = Instrument.getParameter Instrument.initial 3 /\
  Instrument.modWheel (Instrument.setParameter Instrument.initial 5 two)
  = Instrument.modWheel Instrument.initial.
Proof.
  destruct (setParameter_leaves_others Effect.initial Instrument.initial
              0 2 two ltac:(lia)) as ((He & _) & _).
  destruct (setParameter_leaves_others Effect.initial Instrument.initial
              5 3 two ltac:(lia))
    as (_ & Hi & _ & _ & _ & _ & _ & Hm & _).
  split; [exact He|]. split; [exact Hi | exact Hm].
Defined.

Lemma effect_overwrite (e : Effect.state) (i : Z) (v w : float) :
  Effect.setParameter (Effect.setParameter e i v) i w
  = Effect.setParameter e i w.
Proof.
  unfold Effect.setParameter. guard_cases i; [|reflexivity].
  effect_index i G; unfold Effect.set_params; cbn [Effect.params
    Effect.sampleRate Effect.bufferSize Effect.filterState];
    rewrite list_insert_insert_eq; reflexivity.
Qed.

Lemma instrument_overwrite (s : Instrument.state) (i : Z) (v w : float) :
  Instrument.setParameter (Instrument.setParameter s i v) i w
  = Instrument.setParameter s i w.
Proof.
  unfold Instrument.setParameter. guard_cases i; [|reflexivity].
  instrument_index i G; unfold Instrument.set_params;
    cbn [Instrument.params Instrument.sampleRate Instrument.bufferSize
         Instrument.voices Instrument.masterVolume
         Instrument.pitchBendValue Instrument.modWheel
         Instrument.noiseState];
    rewrite list_insert_insert_eq; reflexivity.
Qed.

(** The last write to a parameter wins, and writes to two different
    parameters can be made in either order. *)
Theorem setParameter_overwrite_commute :
  forall (e : Effect.state) (s : Instrument.state) (i j : Z) (v w : float),
    Effect.setParameter (Effect.setParameter e i v) i w
    = Effect.setParameter e i w /\
    Instrument.setParameter (Instrument.setParameter s i v) i w
    = Instrument.setParameter s i w /\
    (i <> j ->
     Effect.setParameter (Effect.setParameter e i v) j w
     = Effect.setParameter (Effect.setParameter e j w) i v /\
     Instrument.setParameter (Instrument.setParameter s i v) j w
     = Instrument.setParameter (Instrument.setParameter s j w) i v).
Proof.
  intros e s i j v w.
  split; [apply effect_overwrite|]. split; [apply instrument_overwrite|].
  intros Hij. split.
  - unfold Effect.setParameter. guard_cases i; guard_cases j;
      try reflexivity.
    effect_index i G; effect_index j G0; try lia;
      unfold Effect.set_params; cbn [Effect.params Effect.sampleRate
        Effect.bufferSize Effect.filterState];
      rewrite list_insert_insert_ne by lia; reflexivity.
  - unfold Instrument.setParameter. guard_cases i; guard_cases j;
      try reflexivity.
    instrument_index i G; instrument_index j G0; try lia;
      unfold Instrument.set_params;
      cbn [Instrument.params Instrument.sampleRate Instrument.bufferSize
           Instrument.voices Instrument.masterVolume
           Instrument.pitchBendValue Instrument.modWheel
           Instrument.noiseState];
      rewrite list_insert_insert_ne by lia; reflexivity.
Qed.

Lemma setParameter_overwrite_commute_witness :
  Effect.setParameter (Effect.setParameter Effect.initial 0 two) 1 one
  = Effect.setParameter (Effect.setParameter Effect.initial 1 one) 0 two /\
  Instrument.setParameter (Instrument.setParameter Instrument.initial 3 one)
                          6 zero
  = Instrument.setParameter (Instrument.setParameter Instrument.initial 6 zero)
                            3 one.
Proof.
  destruct (setParameter_overwrite_commute Effect.initial Instrument.initial
              0 1 two one) as (_ & _ & H). 
  destruct (setParameter_overwrite_commute Effect.initial Instrument.initial
              3 6 one zero) as (_ & _ & H').
  split; [apply H; lia | apply H'; lia].
Defined.

(** Writing back the value read after a [setParameter] changes nothing:
    the stored value is a fixed point of the clamp. *)
Theorem setParameter_readback :
  forall (e : Effect.state) (s : Instrument.state) (i : Z) (v : float),
    Effect.wf e -> Instrument.wf s ->
    (0 <= i < 4 ->
     let e' := Effect.setParameter e i v in
     Effect.setParameter e' i (Effect.getParameter e' i) = e') /\
    (0 <= i < 8 ->
     let s' := Instrument.setParameter s i v in
     Instrument.setParameter s' i (Instrument.getParameter s' i) = s').
Proof.
  intros e s i v He Hs. split; intros Hi; cbv zeta.
  - rewrite effect_set_get, effect_overwrite by assumption.
    pose proof (clamp_idempotent v _ _ (effect_range_nonempty i)) as Hc.
    unfold Effect.setParameter.
    destruct ((0 <=? i) && (i <? Effect.NUM_PARAMETERS)); [|reflexivity].
    assert (i = 0 \/ i = 1 \/ i = 2 \/ i = 3) as C by lia.
    destruct C as [->|[->|[->| ->]]];
      cbn [Effect.param_min Effect.param_max] in Hc |- *;
      rewrite Hc; reflexivity.
  - rewrite instrument_set_get, instrument_overwrite by assumption.
    pose proof (clamp_idempotent v _ _ (instrument_range_nonempty i)) as Hc.
    unfold Instrument.setParameter.
    destruct ((0 <=? i) && (i <? Instrument.NUM_PARAMETERS)); [|reflexivity].
    assert (i = 0 \/ i = 1 \/ i = 2 \/ i = 3 \/
            i = 4 \/ i = 5 \/ i = 6 \/ i = 7) as C by lia.
    destruct C as [->|[->|[->|[->|[->|[->|[->| ->]]]]]]];
      cbn [Instrument.param_min Instrument.param_max] in Hc |- *;
      change Instrument.clamp with Effect.clamp; rewrite Hc; reflexivity.
Qed.

Lemma setParameter_readback_witness :
  (let e' := Effect.setParameter Effect.initial 0 (of_int 5) in
   Effect.setParameter e' 0 (Effect.getParameter e' 0) = e') /\
  (let s' := Instrument.setParameter Instrument.initial 7 (of_int (-3)) in
   Instrument.setParameter s' 7 (Instrument.getParameter s' 7) = s').
Proof.
  split.
  - apply (setParameter_readback Effect.initial Instrument.initial 0
             (of_int 5)); [split; reflexivity | split; reflexivity | lia].
  - apply (setParameter_readback Effect.initial Instrument.initial 7
             (of_int (-3))); [split; reflexivity | split; reflexivity | lia].
Defined.

End ParamExtras.

(* ====================================================================== *)
(** * Further properties of the effect *)
(* ====================================================================== *)

Module EffectExtras.
Import F32 F32Facts Effect Loops EffectFacts.

Lemma effect_state_eta (st : state) :
  {| sampleRate := sampleRate st; bufferSize := bufferSize st;
     params := params st; filterState := filterState st |} = st.
Proof. destruct st; reflexivity. Qed.

Section Frame.
Variables (sr gain mix cutoff : float) (input : list float).

Local Abbreviation loop := (process_loop sr gain mix cutoff input).

(** Frames [0..n) write cells [0..2n) only. *)
Lemma loop_cells_beyond (n j : nat) (acc : list float * list float) :
  (n * 2 <= j)%nat -> snd (loop n acc) !! j = snd acc !! j.
Proof.
  intros Hj. induction n as [|n IH]; [reflexivity|].
  rewrite loop_S_other by lia. apply IH. lia.
Qed.

(** The filter state of a channel after one more frame. *)
Lemma loop_state_step (i ch : nat) (acc : list float * list float) :
  (ch < 2)%nat -> length (fst acc) = 2%nat ->
  load (fst (loop (S i) acc)) ch
  = lowpass sr (load input (i * 2 + ch)%nat) (load (fst (loop i acc)) ch)
            cutoff.
Proof.
  intros Hch Hfs.
  destruct (loop_lengths sr gain mix cutoff input i acc) as [L1 _].
  rewrite loop_S, !body_fst.
  assert (ch = 0 \/ ch = 1)%nat as [-> | ->] by lia.
  - rewrite load_insert_ne by lia. apply ClampFacts.load_insert. lia.
  - rewrite !(load_insert_ne _ 0 1) by lia.
    apply ClampFacts.load_insert. rewrite length_insert. lia.
Qed.

End Frame.

Lemma process_unfold (st : state) (input output : list float) (n : Z) :
  process st input output n
  = ({| sampleRate := sampleRate st; bufferSize := bufferSize st;
        params := params st;
        filterState :=
          fst (process_loop (sampleRate st) (load (params st) 0)
                 (load (params st) 1) (load (params st) 2) input
                 (Z.to_nat n) (filterState st, output)) |},
     snd (process_loop (sampleRate st) (load (params st) 0)
            (load (params st) 1) (load (params st) 2) input
            (Z.to_nat n) (filterState st, output))).
Proof. unfold process. destruct (process_loop _ _ _ _ _ _ _). reflexivity. Qed.

(** [process] writes the first [2 * numSamples] cells of the output and
    nothing else: later cells, the length of the buffer, the parameters,
    the sample rate and the number of filter states are kept, and a call
    with no samples returns the state and the buffer as they were. *)
Theorem effect_process_frame :
  forall (st : state) (input output : list float) (numSamples : Z),
    let r := process st input output numSamples in
    (forall j, (Z.to_nat numSamples * 2 <= j)%nat ->
               snd r !! j = output !! j) /\
    length (snd r) = length output /\
    params (fst r) = params st /\
    sampleRate (fst r) = sampleRate st /\
    length (filterState (fst r)) = length (filterState st) /\
    (numSamples <= 0 -> r = (st, output)).
Proof.
  intros st input output numSamples. cbv zeta.
  rewrite process_snd, process_fst.
  destruct (loop_lengths (sampleRate st) (load (params st) 0)
              (load (params st) 1) (load (params st) 2) input
              (Z.to_nat numSamples) (filterState st, output)) as [L1 L2].
  split; [|split; [|split; [|split; [|split]]]].
  - intros j Hj. rewrite loop_cells_beyond by assumption. reflexivity.
  - exact L2.
  - unfold process. destruct (process_loop _ _ _ _ _ _ _). reflexivity.
  - unfold process. destruct (process_loop _ _ _ _ _ _ _). reflexivity.
  - exact L1.
  - intros Hn. unfold process.
    replace (Z.to_nat numSamples) with 0%nat by lia.
    cbn [process_loop seq foldl]. rewrite effect_state_eta. reflexivity.
Qed.

Lemma effect_process_frame_witness :
  snd (process initial [one; one] [zero; zero; two] 1) !! 2%nat = Some two /\
  process initial [one; one] [zero; zero; two] (-3)
  = (initial, [zero; zero; two]).
Proof.
  destruct (effect_process_frame initial [one; one] [zero; zero; two] 1)
    as (Hc & _).
  destruct (effect_process_frame initial [one; one] [zero; zero; two] (-3))
    as (_ & _ & _ & _ & _ & He).
  split; [apply (Hc 2%nat); simpl; lia | apply He; lia].
Defined.

(** ** Splitting a buffer between two calls *)

Section Split.
Variables (sr gain mix cutoff : float).

Lemma body_shift (input pre out : list float) (fs : list float)
    (ch k : nat) :
  sample_body sr gain mix cutoff input ch (length pre + k)%nat
              (fs, pre ++ out)
  = (fst (sample_body sr gain mix cutoff (drop (length pre) input) ch k
                      (fs, out)),
     pre ++ snd (sample_body sr gain mix cutoff (drop (length pre) input)
                             ch k (fs, out))).
Proof.
  unfold sample_body. cbn [fst snd].
  assert (load input (length pre + k)%nat
          = load (drop (length pre) input) k) as ->
    by (unfold load; rewrite lookup_drop; reflexivity).
  rewrite insert_app_r_alt by lia.
  replace (length pre + k - length pre)%nat with k by lia. reflexivity.
Qed.

(** Frames [n..n+m) on a buffer are frames [0..m) on the buffer advanced
    by [2n] cells. *)
Lemma loop_shift (input pre out fs : list float) (n m : nat) :
  length pre = (n * 2)%nat ->
  foldl (fun acc i =>
           foldl (fun acc ch =>
                    sample_body sr gain mix cutoff input ch
                                (i * NUM_CHANNELS + ch)%nat acc)
                 acc (seq 0 NUM_CHANNELS))
        (fs, pre ++ out) (seq n m)
  = (fst (process_loop sr gain mix cutoff (drop (n * 2) input) m (fs, out)),
     pre ++ snd (process_loop sr gain mix cutoff (drop (n * 2) input) m
                              (fs, out))).
Proof.
  intros Hpre. induction m as [|m IH]; [reflexivity|].
  rewrite foldl_seq_S, IH, loop_S.
  destruct (process_loop sr gain mix cutoff (drop (n * 2) input) m (fs, out))
    as [fs' out'].
  unfold NUM_CHANNELS. cbn [fst snd foldl seq].
  replace ((n + m) * 2 + 0)%nat with (length pre + (m * 2 + 0))%nat by lia.
  rewrite body_shift.
  replace ((n + m) * 2 + 1)%nat with (length pre + (m * 2 + 1))%nat by lia.
  rewrite body_shift, Hpre. cbn [fst snd].
  rewrite <- !surjective_pairing. reflexivity.
Qed.

End Split.

(** Processing [n + m] frames in one call gives the state and the output
    of processing [n] frames and then [m] frames from where the first call
    stopped in both buffers: the result does not depend on how the host
    cuts the stream into blocks. *)
Theorem effect_process_split :
  forall (st : state) (input output : list float) (n m : nat),
    (n * 2 <= length output)%nat ->
    let r1 := process st input output (Z.of_nat n) in
    let r2 := process (fst r1) (drop (n * 2) input) (drop (n * 2) (snd r1))
                      (Z.of_nat m) in
    process st input output (Z.of_nat (n + m))
    = (fst r2, take (n * 2) (snd r1) ++ snd r2).
Proof.
  intros st input output n m Hlen. cbv zeta.
  rewrite !process_unfold, !Nat2Z.id.
  cbn [fst snd params sampleRate bufferSize filterState].
  set (L1 := process_loop (sampleRate st) (load (params st) 0)
               (load (params st) 1) (load (params st) 2) input n
               (filterState st, output)).
  assert (length (take (n * 2) (snd L1)) = (n * 2)%nat) as Hpre.
  { apply length_take_le. unfold L1.
    destruct (loop_lengths (sampleRate st) (load (params st) 0)
                (load (params st) 1) (load (params st) 2) input n
                (filterState st, output)) as [_ ->]. exact Hlen. }
  pose proof (loop_shift (sampleRate st) (load (params st) 0)
                (load (params st) 1) (load (params st) 2) input
                (take (n * 2) (snd L1)) (drop (n * 2) (snd L1)) (fst L1)
                n m Hpre) as Hshift.
  rewrite take_drop, <- surjective_pairing in Hshift.
  assert (process_loop (sampleRate st) (load (params st) 0)
            (load (params st) 1) (load (params st) 2) input (n + m)
            (filterState st, output)
          = foldl
              (fun acc i =>
                 foldl (fun acc ch =>
                          sample_body (sampleRate st) (load (params st) 0)
                            (load (params st) 1) (load (params st) 2) input
                            ch (i * NUM_CHANNELS + ch)%nat acc)
                       acc (seq 0 NUM_CHANNELS))
              L1 (seq n m)) as ->.
  { unfold L1, process_loop. rewrite seq_app, foldl_app. reflexivity. }
  rewrite Hshift. reflexivity.
Qed.

Lemma effect_process_split_witness :
  process initial [one; two; one; two; one; two] (replicate 6 zero) 3
  = (fst (process (fst (process initial [one; two; one; two; one; two]
                                (replicate 6 zero) 1))
                  [one; two; one; two]
                  (drop 2 (snd (process initial [one; two; one; two; one; two]
                                        (replicate 6 zero) 1))) 2),
     take 2 (snd (process initial [one; two; one; two; one; two]
                          (replicate 6 zero) 1))
     ++ snd (process (fst (process initial [one; two; one; two; one; two]
                                   (replicate 6 zero) 1))
                     [one; two; one; two]
                     (drop 2 (snd (process initial
                                     [one; two; one; two; one; two]
                                     (replicate 6 zero) 1))) 2)).
Proof.
  apply (effect_process_split initial [one; two; one; two; one; two]
           (replicate 6 zero) 1 2).
  simpl. lia.
Defined.

(** ** [init] and [reset] *)

Lemma zero_fill_length (b : list float) (n : nat) :
  length (zero_fill b n) = length b.
Proof.
  unfold zero_fill.
  apply (foldl_seq_invariant (fun o => length o = length b)); [reflexivity|].
  intros o i _ Ho. rewrite length_insert. exact Ho.
Qed.

Lemma zero_fill_lookup_lt (b : list float) (n j : nat) :
  (j < n)%nat -> (j < length b)%nat -> zero_fill b n !! j = Some zero.
Proof.
  intros Hn Hb. induction n as [|n IH]; [lia|].
  unfold zero_fill in *. rewrite foldl_seq_S. cbn [Nat.add].
  pose proof (zero_fill_length b n) as L. unfold zero_fill in L.
  destruct (decide (j = n)) as [->|Hne].
  - apply list_lookup_insert_eq. lia.
  - rewrite list_lookup_insert_ne by lia. apply IH. lia.
Qed.

Lemma zero_fill_all (b : list float) (n : nat) :
  length b = n -> zero_fill b n = replicate n zero.
Proof.
  intros H. apply list_eq. intros j.
  destruct (decide (j < n)%nat) as [Hlt|Hge].
  - rewrite zero_fill_lookup_lt, lookup_replicate_2 by lia. reflexivity.
  - rewrite (lookup_ge_None_2 (zero_fill b n))
      by (rewrite zero_fill_length; lia).
    symmetry. apply lookup_replicate_None. lia.
Qed.

Lemma two_cells (l : list float) :
  length l = 2%nat -> <[1%nat := zero]> (<[0%nat := zero]> l) = [zero; zero].
Proof.
  destruct l as [|a [|b [|c l]]]; try discriminate. reflexivity.
Qed.

(** [reset] sets both filter states to 0 and keeps the parameters, the
    sample rate and the buffer size, so it forgets the audio processed so
    far: two states with the same parameters, sample rate and buffer size
    are equal after [reset], whatever was processed before.  [reset] twice
    is [reset] once.  On the delay line, the other thing the C function
    clears, it sets the write position to 0, keeps the length, leaves a
    NULL buffer NULL and, the length being not negative, fills a buffer
    of 2 * delayLength cells with zeros.  [init] clears the filter states too, stores the sample rate
    and buffer size it is given and keeps the parameters the host has set
    (it does not restore the defaults). *)
Theorem effect_reset_forgets_history :
  forall (st st' : state) (d : delay) (b input output : list float) (n : Z)
         (sr : float) (bs : Z),
    wf st -> wf st' ->
    (filterState (reset st) = [zero; zero] /\
     params (reset st) = params st /\
     sampleRate (reset st) = sampleRate st /\
     bufferSize (reset st) = bufferSize st) /\
    reset (reset st) = reset st /\
    reset (fst (process st input output n)) = reset st /\
    (params st' = params st -> sampleRate st' = sampleRate st ->
     bufferSize st' = bufferSize st -> reset st' = reset st) /\
    (delayWritePos (reset_delay d) = 0 /\
     delayLength (reset_delay d) = delayLength d /\
     (delayBuffer d = None -> delayBuffer (reset_delay d) = None) /\
     (delayBuffer d = Some b -> 0 <= delayLength d ->
      length b = Z.to_nat (delayLength d * 2) ->
      delayBuffer (reset_delay d)
      = Some (replicate (Z.to_nat (delayLength d * 2)) zero))) /\
    (filterState (init st sr bs) = [zero; zero] /\
     params (init st sr bs) = params st /\
     sampleRate (init st sr bs) = sr /\
     bufferSize (init st sr bs) = bs).
Proof.
  intros st st' d b input output n sr bs [Hp Hf] [Hp' Hf'].
  assert (forall s, length (filterState s) = 2%nat ->
                    reset s = mkState (sampleRate s) (bufferSize s)
                                      (params s) [zero; zero]) as R.
  { intros s Hs. unfold reset. rewrite two_cells by exact Hs. reflexivity. }
  split; [|split; [|split; [|split; [|split]]]].
  - rewrite R by exact Hf. auto.
  - rewrite (R st Hf). reflexivity.
  - rewrite process_unfold. cbn [fst]. rewrite R, (R st Hf).
    + reflexivity.
    + cbn [filterState].
      destruct (loop_lengths (sampleRate st) (load (params st) 0)
                  (load (params st) 1) (load (params st) 2) input
                  (Z.to_nat n) (filterState st, output)) as [-> _].
      exact Hf.
  - intros E1 E2 E3. rewrite (R st Hf), (R st' Hf'), E1, E2, E3. reflexivity.
  - unfold reset_delay. cbn [delayWritePos delayLength delayBuffer].
    split; [reflexivity|]. split; [reflexivity|].
    split; [intros ->; reflexivity|].
    intros -> _ Hb. rewrite zero_fill_all by exact Hb. reflexivity.
  - unfold init. cbn [filterState params sampleRate bufferSize].
    split; [apply two_cells; exact Hf|auto].
Qed.

Lemma effect_reset_forgets_history_witness :
  reset (fst (process initial [one; two] [zero; zero] 1)) = reset initial /\
  filterState (init (fst (process initial [one; two] [zero; zero] 1))
                    (of_int 48000) 256) = [zero; zero] /\
  params (reset (setParameter initial 0 two)) = [two; lit 1 2; of_int 1000;
                                                 lit 1 2] /\
  delayBuffer (reset_delay (mkDelay (Some [one; two; one; two]) 3 2))
  = Some [zero; zero; zero; zero].
Proof.
  assert (wf initial) as W by (split; reflexivity).
  assert (wf (fst (process initial [one; two] [zero; zero] 1))) as W'
    by (split; reflexivity).
  assert (wf (setParameter initial 0 two)) as W''
    by (split; reflexivity).
  destruct (effect_reset_forgets_history initial initial initial_delay
              [] [one; two] [zero; zero] 1 (of_int 48000) 256 W W)
    as (_ & _ & H & _).
  destruct (effect_reset_forgets_history
              (fst (process initial [one; two] [zero; zero] 1)) initial
              initial_delay [] [] [] 0 (of_int 48000) 256 W' W)
    as (_ & _ & _ & _ & _ & H' & _).
  destruct (effect_reset_forgets_history (setParameter initial 0 two)
              initial (mkDelay (Some [one; two; one; two]) 3 2)
              [one; two; one; two] [] [] 0 zero 0 W'' W)
    as ((_ & H'' & _) & _ & _ & _ & (_ & _ & _ & Hd) & _).
  split; [exact H|]. split; [exact H'|]. split; [exact H''|].
  apply Hd; [reflexivity | simpl; lia | reflexivity].
Defined.

(** ** [processBlock] with fewer than two channels *)

(** [processBlock] does nothing when the channel count or the sample
    count is not positive.  With one channel it writes the first
    [numSamples] cells only and leaves the filter state of channel 1 as it
    was. *)
Theorem effect_processBlock_mono_and_empty :
  forall (st : state) (input output : list float)
         (numSamples numChannels : Z),
    (numChannels <= 0 \/ numSamples <= 0 ->
     processBlock st input output numSamples numChannels = (st, output)) /\
    (numChannels = 1 ->
     let r := processBlock st input output numSamples numChannels in
     (forall j, (Z.to_nat numSamples <= j)%nat -> snd r !! j = output !! j) /\
     filterState (fst r) !! 1%nat = filterState st !! 1%nat /\
     length (snd r) = length output).
Proof.
  intros st input output numSamples numChannels. split.
  - intros H. unfold processBlock, block_loop.
    destruct H as [H|H].
    + replace (Z.to_nat numChannels) with 0%nat by lia.
      cbn [Nat.min seq foldl]. rewrite effect_state_eta. reflexivity.
    + replace (Z.to_nat numSamples) with 0%nat by lia.
      assert (forall k (acc : list float * list float),
                foldl (fun acc (_ : nat) => acc) acc (seq 0 k) = acc) as Hk
        by (intros k; generalize 0%nat; induction k; intros; simpl; auto).
      cbn [seq foldl]. rewrite Hk, effect_state_eta. reflexivity.
  - intros ->. cbv zeta.
    pose proof (block_loop_frame (sampleRate st) (load (params st) 0)
                  (load (params st) 1) (load (params st) 2) input
                  (Z.to_nat numSamples) (Z.to_nat 1)
                  (filterState st) output) as F.
    cbv zeta in F. change (Nat.min (Z.to_nat 1) NUM_CHANNELS) with 1%nat in F.
    destruct F as (Fo & Ff & Lo & _).
    rewrite processBlock_fst, processBlock_snd. cbn [filterState].
    split; [|split].
    + intros j Hj. apply Fo. lia.
    + apply Ff. lia.
    + exact Lo.
Qed.

Lemma effect_processBlock_mono_and_empty_witness :
  processBlock initial [one; one] [two; two] 2 0 = (initial, [two; two]) /\
  snd (processBlock initial [one; one; one] [two; two; two] 2 1) !! 2%nat
  = Some two.
Proof.
  destruct (effect_processBlock_mono_and_empty initial [one; one]
              [two; two] 2 0) as (H0 & _).
  destruct (effect_processBlock_mono_and_empty initial [one; one; one]
              [two; two; two] 2 1) as (_ & H1).
  split; [apply H0; left; lia|].
  destruct (H1 eq_refl) as (Hc & _). apply (Hc 2%nat). simpl. lia.
Defined.

(** ** The delay buffer *)

(** The life cycle of the delay buffer.  After a successful allocation of
    2 * (int)sampleRate cells every cell is 0, and [reset] keeps it so for
    any buffer of that size.  When the allocation fails the buffer stays
    NULL and [reset] and [dispose] do nothing to it.  [dispose] always
    leaves NULL, so a second [dispose] and a [reset] after [dispose] touch
    no memory. *)
Theorem effect_delay_lifecycle :
  forall (d : delay) (sr : float) (block b : list float),
    (length block = Z.to_nat (to_int sr * 2) ->
     delayBuffer (init_delay d sr (Some block))
     = Some (replicate (Z.to_nat (to_int sr * 2)) zero) /\
     reset_delay (init_delay d sr (Some block))
     = init_delay d sr (Some block)) /\
    (delayBuffer d = Some b -> length b = Z.to_nat (delayLength d * 2) ->
     delayBuffer (reset_delay d)
     = Some (replicate (Z.to_nat (delayLength d * 2)) zero)) /\
    delayBuffer (init_delay d sr None) = None /\
    reset_delay (init_delay d sr None) = init_delay d sr None /\
    dispose_delay (init_delay d sr None) = init_delay d sr None /\
    delayBuffer (dispose_delay d) = None /\
    dispose_delay (dispose_delay d) = dispose_delay d /\
    delayBuffer (reset_delay (dispose_delay d)) = None.
Proof.
  intros d sr block b. split; [|split; [|repeat split]].
  - intros Hb. unfold init_delay, reset_delay.
    cbn [delayBuffer delayLength]. rewrite zero_fill_all by exact Hb.
    split; [reflexivity|].
    rewrite zero_fill_all by apply length_replicate. reflexivity.
  - intros Hd Hb. unfold reset_delay. rewrite Hd. cbn [delayBuffer].
    rewrite zero_fill_all by exact Hb. reflexivity.
Qed.

Lemma effect_delay_lifecycle_witness :
  delayBuffer (init_delay initial_delay (of_int 2) (Some [one; two; one; two]))
  = Some [zero; zero; zero; zero] /\
  delayBuffer (reset_delay (mkDelay (Some [one; two]) 1 1))
  = Some [zero; zero].
Proof.
  destruct (effect_delay_lifecycle initial_delay (of_int 2)
              [one; two; one; two] []) as (H & _).
  destruct (effect_delay_lifecycle (mkDelay (Some [one; two]) 1 1) zero
              [] [one; two]) as (_ & H' & _).
  split.
  - apply H. reflexivity.
  - apply H'; reflexivity.
Defined.

(** ** The interleaved and the planar entry point *)

Section Equivalence.
Variables (sr gain mix cutoff : float).

Lemma channel_run_snoc (state : float) (xs : list float) (x : float) :
  channel_run sr cutoff state (xs ++ [x])
  = lowpass sr x (channel_run sr cutoff state xs) cutoff.
Proof. unfold channel_run. rewrite foldl_app. reflexivity. Qed.

(** In [process] the filter state of a channel after [i] frames is the
    run of the lowpass over the channel's first [i] samples. *)
Lemma process_loop_run (input : list float) (i ch : nat)
    (acc : list float * list float) :
  (ch < 2)%nat -> length (fst acc) = 2%nat ->
  load (fst (process_loop sr gain mix cutoff input i acc)) ch
  = channel_run sr cutoff (load (fst acc) ch)
                ((fun k => load input (k * 2 + ch)%nat) <$> seq 0 i).
Proof.
  intros Hch Hfs. induction i as [|i IH]; [reflexivity|].
  rewrite loop_state_step, IH, seq_S, fmap_snoc, channel_run_snoc
    by assumption.
  reflexivity.
Qed.

(** The loop of [processBlock] over the samples of channel [ch]. *)
Local Abbreviation inner input n ch k acc :=
  (foldl (fun a j =>
            sample_body sr gain mix cutoff input ch (ch * n + j)%nat a)
         acc (seq 0 k)).

Lemma inner_lengths (input : list float) (n ch k : nat)
    (acc : list float * list float) :
  length (fst (inner input n ch k acc)) = length (fst acc) /\
  length (snd (inner input n ch k acc)) = length (snd acc).
Proof.
  induction k as [|k [IH1 IH2]]; [split; reflexivity|].
  rewrite foldl_seq_S, body_fst, body_snd, !length_insert. auto.
Qed.

Lemma inner_state (input : list float) (n ch k : nat)
    (acc : list float * list float) :
  (ch < length (fst acc))%nat ->
  load (fst (inner input n ch k acc)) ch
  = channel_run sr cutoff (load (fst acc) ch)
                ((fun i => load input (ch * n + i)%nat) <$> seq 0 k).
Proof.
  intros Hch. induction k as [|k IH]; [reflexivity|].
  destruct (inner_lengths input n ch k acc) as [L1 _].
  rewrite foldl_seq_S, body_fst, seq_S, fmap_snoc, channel_run_snoc, <- IH.
  apply ClampFacts.load_insert. lia.
Qed.

Lemma inner_other_state (input : list float) (n ch ch' k : nat)
    (acc : list float * list float) :
  ch' <> ch -> load (fst (inner input n ch k acc)) ch' = load (fst acc) ch'.
Proof.
  intros Hne. induction k as [|k IH]; [reflexivity|].
  rewrite foldl_seq_S, body_fst, load_insert_ne by auto. exact IH.
Qed.

Lemma inner_other_cells (input : list float) (n ch k j : nat)
    (acc : list float * list float) :
  (j < ch * n \/ ch * n + k <= j)%nat ->
  snd (inner input n ch k acc) !! j = snd acc !! j.
Proof.
  intros Hj. induction k as [|k IH]; [reflexivity|].
  rewrite foldl_seq_S, body_snd, list_lookup_insert_ne by lia.
  apply IH. lia.
Qed.

Lemma inner_cell (input : list float) (n ch k i : nat)
    (acc : list float * list float) :
  (i < k)%nat -> (ch < length (fst acc))%nat ->
  (ch * n + i < length (snd acc))%nat ->
  let x := load input (ch * n + i)%nat in
  let y := lowpass sr x
             (channel_run sr cutoff (load (fst acc) ch)
                ((fun i => load input (ch * n + i)%nat) <$> seq 0 i))
             cutoff in
  snd (inner input n ch k acc) !! (ch * n + i)%nat
  = Some (mul (lerp x y mix) gain).
Proof.
  intros Hi Hch Hout. cbv zeta. induction k as [|k IH]; [lia|].
  destruct (inner_lengths input n ch k acc) as [_ L2].
  rewrite foldl_seq_S, body_snd. cbn [Nat.add].
  destruct (decide (i = k)) as [->|Hne].
  - rewrite list_lookup_insert_eq by lia.
    rewrite inner_state by assumption. reflexivity.
  - rewrite list_lookup_insert_ne by lia. apply IH. lia.
Qed.

Lemma block_loop_two (input : list float) (n nc : nat)
    (acc : list float * list float) :
  (2 <= nc)%nat ->
  block_loop sr gain mix cutoff input n nc acc
  = inner input n 1%nat n (inner input n 0%nat n acc).
Proof.
  intros Hnc. unfold block_loop.
  replace (Nat.min nc NUM_CHANNELS) with 2%nat by (unfold NUM_CHANNELS; lia).
  reflexivity.
Qed.

Lemma two_cells_eq (l1 l2 : list float) :
  length l1 = 2%nat -> length l2 = 2%nat ->
  load l1 0 = load l2 0 -> load l1 1 = load l2 1 -> l1 = l2.
Proof.
  destruct l1 as [|a1 [|b1 [|c1 l1]]]; try discriminate.
  destruct l2 as [|a2 [|b2 [|c2 l2]]]; try discriminate.
  unfold load. simpl. intros _ _ -> ->. reflexivity.
Qed.

Lemma loops_agree (inter planar out_i out_p fs : list float)
    (n nc i ch : nat) :
  length fs = 2%nat -> (2 <= nc)%nat ->
  (forall k c, (k < n)%nat -> (c < 2)%nat ->
               load inter (k * 2 + c)%nat = load planar (c * n + k)%nat) ->
  (i < n)%nat -> (ch < 2)%nat ->
  (n * 2 <= length out_i)%nat -> (n * 2 <= length out_p)%nat ->
  snd (process_loop sr gain mix cutoff inter n (fs, out_i))
    !! (i * 2 + ch)%nat
  = snd (block_loop sr gain mix cutoff planar n nc (fs, out_p))
      !! (ch * n + i)%nat /\
  fst (process_loop sr gain mix cutoff inter n (fs, out_i))
  = fst (block_loop sr gain mix cutoff planar n nc (fs, out_p)).
Proof.
  intros Hfs Hnc Hsame Hi Hch Hoi Hop.
  assert (forall k c0, (k <= n)%nat -> (c0 < 2)%nat ->
            (fun j => load inter (j * 2 + c0)%nat) <$> seq 0 k
            = (fun j => load planar (c0 * n + j)%nat) <$> seq 0 k) as Hpre.
  { intros k c0 Hk Hc0. apply list_fmap_ext. intros j x Hx.
    apply lookup_seq in Hx as [-> Hj]. apply Hsame; lia. }
  rewrite block_loop_two by assumption.
  destruct (inner_lengths planar n 0 n (fs, out_p)) as [L01 L02].
  cbn [fst snd] in L01, L02.
  split.
  - rewrite loop_cell_stable by assumption.
    destruct (loop_frame sr gain mix cutoff inter i ch (fs, out_i))
      as [-> _]; [assumption | exact Hfs | cbn [snd]; lia |].
    rewrite process_loop_run, (Hpre i ch) by (assumption || lia).
    cbn [fst]. rewrite Hsame by assumption.
    assert (ch = 0 \/ ch = 1)%nat as [-> | ->] by lia.
    + rewrite inner_other_cells by lia.
      rewrite (inner_cell planar n 0 n i) by (cbn [fst snd]; lia).
      reflexivity.
    + rewrite (inner_cell planar n 1 n i) by lia.
      rewrite inner_other_state by lia. reflexivity.
  - destruct (loop_lengths sr gain mix cutoff inter n (fs, out_i))
      as [L1 _]. cbn [fst] in L1.
    destruct (inner_lengths planar n 1 n (inner planar n 0%nat n (fs, out_p)))
      as [L11 _].
    apply two_cells_eq; try lia.
    + rewrite process_loop_run, (Hpre n 0%nat) by (cbn [fst]; lia).
      rewrite inner_other_state by lia.
      rewrite inner_state by (cbn [fst]; lia). reflexivity.
    + rewrite process_loop_run, (Hpre n 1%nat) by (cbn [fst]; lia).
      rewrite inner_state by lia.
      rewrite inner_other_state by lia. reflexivity.
Qed.

End Equivalence.

(** [process] on an interleaved stereo buffer and [processBlock] on the
    planar buffer holding the same samples compute the same output
    samples and leave the same state: sample [i] of channel [ch] is found
    at cell [2i + ch] of one output and at cell [ch * numSamples + i] of
    the other. *)
Theorem effect_process_matches_processBlock :
  forall (st : state) (inter planar out_i out_p : list float)
         (numSamples numChannels : Z) (i ch : nat),
    wf st -> 2 <= numChannels ->
    (forall k c, (k < Z.to_nat numSamples)%nat -> (c < 2)%nat ->
                 load inter (k * 2 + c)%nat
                 = load planar (c * Z.to_nat numSamples + k)%nat) ->
    (i < Z.to_nat numSamples)%nat -> (ch < 2)%nat ->
    (Z.to_nat numSamples * 2 <= length out_i)%nat ->
    (Z.to_nat numSamples * 2 <= length out_p)%nat ->
    snd (process st inter out_i numSamples) !! (i * 2 + ch)%nat
    = snd (processBlock st planar out_p numSamples numChannels)
        !! (ch * Z.to_nat numSamples + i)%nat /\
    fst (process st inter out_i numSamples)
    = fst (processBlock st planar out_p numSamples numChannels).
Proof.
  intros st inter planar out_i out_p numSamples numChannels i ch
         [_ Hfs] Hnc Hsame Hi Hch Hoi Hop.
  rewrite process_unfold, processBlock_fst, processBlock_snd. cbn [fst snd].
  destruct (loops_agree (sampleRate st) (load (params st) 0)
              (load (params st) 1) (load (params st) 2) inter planar
              out_i out_p (filterState st) (Z.to_nat numSamples)
              (Z.to_nat numChannels) i ch Hfs ltac:(lia) Hsame Hi Hch
              Hoi Hop) as [-> ->].
  split; reflexivity.
Qed.

Lemma effect_process_matches_processBlock_witness :
  snd (process initial [one; two; zero; one] (replicate 4 zero) 2) !! 3%nat
  = snd (processBlock initial [one; zero; two; one] (replicate 4 zero) 2 2)
      !! 3%nat /\
  fst (process initial [one; two; zero; one] (replicate 4 zero) 2)
  = fst (processBlock initial [one; zero; two; one] (replicate 4 zero) 2 2).
Proof.
  apply (effect_process_matches_processBlock initial [one; two; zero; one]
           [one; zero; two; one] (replicate 4 zero) (replicate 4 zero)
           2 2 1 1).
  - split; reflexivity.
  - lia.
  - intros k c Hk Hc.
    assert (k = 0 \/ k = 1)%nat as [-> | ->] by (simpl in Hk; lia);
      assert (c = 0 \/ c = 1)%nat as [-> | ->] by lia; reflexivity.
  - simpl. lia.
  - lia.
  - simpl. lia.
  - simpl. lia.
Defined.

End EffectExtras.

(* ====================================================================== *)
(** * Further properties of the instrument *)
(* ====================================================================== *)

Module InstrumentExtras.
Import F32 F32Facts Instrument Loops InstrumentFacts.

Lemma instrument_state_eta (st : state) :
  mkState (sampleRate st) (bufferSize st) (voices st) (params st)
          (masterVolume st) (pitchBendValue st) (modWheel st) (noiseState st)
  = st.
Proof. destruct st; reflexivity. Qed.

Lemma lt_le (x y : float) : lt x y = true -> le x y = true.
Proof.
  unfold lt, le, SFltb, SFleb. destruct (SFcompare x y) as [[]|]; auto.
Qed.

(** ** Bounds kept by the envelope *)

(** One envelope update never leaves the level above 1 in Attack, never
    below the sustain level in Decay, and in Release either ends the voice
    (stage 0, inactive, level exactly 0) or leaves a level that is not
    <= 0.001.  The [active] flag changes only when Release ends, and a
    voice in any other stage is returned as it is. *)
Theorem envelope_update_bounds :
  forall (ps : list float) (sr : float) (v : Voice),
    let v' := updateEnvelope ps sr v in
    (envStage v = 1 ->
     lt one (envelope v') = false /\ active v' = active v /\
     (envStage v' = 1 \/ envStage v' = 2 /\ envelope v' = one)) /\
    (envStage v = 2 ->
     lt (envelope v') (load ps 3) = false /\ active v' = active v /\
     (envStage v' = 2 \/ envStage v' = 3 /\ envelope v' = load ps 3)) /\
    (envStage v = 4 ->
     (envStage v' = 0 /\ active v' = 0 /\ envelope v' = zero) \/
     (envStage v' = 4 /\ active v' = active v /\
      le (envelope v') (lit 1 1000) = false)) /\
    (envStage v <> 1 -> envStage v <> 2 -> envStage v <> 4 -> v' = v).
Proof.
  intros ps sr [a n vel ph inc env stg tgt fs lfo]. cbv zeta.
  unfold updateEnvelope. cbn [envStage].
  split; [|split; [|split]].
  - intros ->. cbn -[add sub mul div le ge lt lit one zero load].
    destruct (ge _ one) eqn:E; cbn -[add sub mul div le ge lt lit one zero load].
    + split; [apply lt_irrefl|]. split; [reflexivity|]. right. auto.
    + split; [|split; [reflexivity|left; reflexivity]].
      destruct (lt one _) eqn:E'; [|reflexivity].
      apply lt_le in E'. unfold ge in E. congruence.
  - intros ->. cbn -[add sub mul div le ge lt lit one zero load].
    destruct (le _ (load ps 3)) eqn:E;
      cbn -[add sub mul div le ge lt lit one zero load].
    + split; [apply lt_irrefl|]. split; [reflexivity|]. right. auto.
    + split; [|split; [reflexivity|left; reflexivity]].
      destruct (lt _ (load ps 3)) eqn:E'; [|reflexivity].
      apply lt_le in E'. congruence.
  - intros ->. cbn -[add sub mul div le ge lt lit one zero load].
    destruct (le _ (lit 1 1000)) eqn:E;
      cbn -[add sub mul div le ge lt lit one zero load]; [left|right]; auto.
  - intros H1 H2 H4.
    destruct stg as [|p|p]; try reflexivity.
    destruct p as [[p|p|]|[[p|p|]|[p|p|]|]|]; try reflexivity; congruence.
Qed.

Lemma envelope_update_bounds_witness :
  (* the attack step that reaches the top: from 0.999 to exactly 1 *)
  lt one (envelope (updateEnvelope (params initial) (of_int 44100)
                      (mkVoice 1 69 one zero zero (lit 999 1000) 1 zero
                               (zero, zero) zero))) = false /\
  (* an unknown stage number is left alone *)
  updateEnvelope (params initial) (of_int 44100)
    (mkVoice 1 69 one zero zero one 9 zero (zero, zero) zero)
  = mkVoice 1 69 one zero zero one 9 zero (zero, zero) zero.
Proof.
  destruct (envelope_update_bounds (params initial) (of_int 44100)
              (mkVoice 1 69 one zero zero (lit 999 1000) 1 zero
                       (zero, zero) zero)) as (H1 & _).
  destruct (envelope_update_bounds (params initial) (of_int 44100)
              (mkVoice 1 69 one zero zero one 9 zero (zero, zero) zero))
    as (_ & _ & _ & H9).
  split.
  - apply H1. reflexivity.
  - apply H9; simpl; lia.
Defined.

(** ** Note-off *)

Lemma noteOff_voice_idempotent (n : Z) (v : Voice) :
  noteOff_voice n (noteOff_voice n v) = noteOff_voice n v.
Proof.
  rewrite (noteOff_voice_spec n v).
  destruct (decide _) as [H|H]; rewrite noteOff_voice_spec.
  - destruct (decide _) as [(_ & _ & H')|_]; [|reflexivity].
    simpl in H'. congruence.
  - destruct (decide _); [contradiction|reflexivity].
Qed.

Lemma noteOff_voice_active (n : Z) (v : Voice) :
  active (noteOff_voice n v) = active v.
Proof.
  rewrite noteOff_voice_spec. destruct (decide _); reflexivity.
Qed.

(** A note-off changes no [active] flag, so the number of active voices
    stays the same (voices end only when their release has run out).
    Repeating a note-off changes nothing more, and a note-off for a note
    that no active, not yet releasing voice plays returns the state
    unchanged. *)
Theorem noteOff_idempotent_and_inert :
  forall (st : state) (n channel channel' : Z),
    noteOff (noteOff st n channel) n channel' = noteOff st n channel /\
    active <$> voices (noteOff st n channel) = active <$> voices st /\
    active_count (voices (noteOff st n channel)) = active_count (voices st) /\
    (Forall (fun v => active v = 0 \/ note v <> n \/ envStage v = 4)
            (voices st) ->
     noteOff st n channel = st).
Proof.
  intros st n channel channel'.
  assert (active <$> voices (noteOff st n channel) = active <$> voices st)
    as Hact.
  { simpl. rewrite <- list_fmap_compose. apply list_fmap_ext.
    intros i v _. apply noteOff_voice_active. }
  split; [|split; [exact Hact|split]].
  - unfold noteOff, set_voices. cbn [voices sampleRate bufferSize params
      masterVolume pitchBendValue modWheel noiseState].
    f_equal. rewrite <- list_fmap_compose. apply list_fmap_ext.
    intros i v _. apply noteOff_voice_idempotent.
  - unfold noteOff, set_voices. cbn [voices]. clear Hact.
    induction (voices st) as [|v vs IH]; [reflexivity|].
    rewrite fmap_cons, !active_count_cons, noteOff_voice_active, IH.
    reflexivity.
  - intros H. unfold noteOff, set_voices.
    replace (noteOff_voice n <$> voices st) with (voices st);
      [apply instrument_state_eta|].
    rewrite <- (list_fmap_id (voices st)) at 1.
    apply Forall_fmap_ext. eapply Forall_impl; [exact H|].
    intros v Hv. rewrite noteOff_voice_spec.
    destruct (decide _) as [(Ha & Hn & Hs)|_]; [|reflexivity].
    destruct Hv as [?|[?|?]]; contradiction.
Qed.

Lemma noteOff_idempotent_and_inert_witness :
  noteOff (noteOn (M := linear_libm) initial 60 100 0) 61 0
  = noteOn (M := linear_libm) initial 60 100 0.
Proof.
  destruct (noteOff_idempotent_and_inert
              (noteOn (M := linear_libm) initial 60 100 0) 61 0 0)
    as (_ & _ & _ & H).
  apply H. apply Forall_forall. intros v Hv. right. left.
  apply list_elem_of_In in Hv. cbn in Hv.
  repeat (destruct Hv as [<-|Hv]; [cbn; lia|]). destruct Hv.
Defined.

(** ** Note-on *)

(** A note-on with non-zero velocity rewrites one voice and nothing else:
    every other voice, the parameters and the performance state are kept.
    The voice it starts is active, in Attack at level 0, with phase and
    filter state cleared, and keeps the fields [noteOn] does not assign. *)
Theorem noteOn_touches_one_voice :
  forall {M : Libm} (st : state) (n vel channel : Z) (j : nat),
    wf st -> vel <> 0 ->
    let k := Z.to_nat (find_voice (voices st)) in
    let st' := noteOn st n vel channel in
    (j <> k -> voices st' !! j = voices st !! j) /\
    (exists u v,
       voices st !! k = Some u /\ voices st' !! k = Some v /\
       active v = 1 /\ note v = n /\ envStage v = 1 /\
       envelope v = zero /\ phase v = zero /\
       filterState v = (zero, zero) /\
       envTarget v = envTarget u /\ lfoPhase v = lfoPhase u) /\
    params st' = params st /\ masterVolume st' = masterVolume st /\
    pitchBendValue st' = pitchBendValue st /\ modWheel st' = modWheel st /\
    noiseState st' = noiseState st /\ sampleRate st' = sampleRate st.
Proof.
  intros M st n vel channel j [Hlen _] Hvel. cbv zeta.
  assert (voices st <> []) as Hne by (intros E; rewrite E in Hlen; discriminate).
  destruct (find_voice_bound _ Hne) as [_ Hk].
  apply lookup_lt_is_Some_2 in Hk. destruct Hk as [u Hu].
  rewrite noteOn_voices by assumption.
  split; [|split].
  - intros Hj. apply list_lookup_alter_ne. auto.
  - exists u, (start_voice (sampleRate st) n vel u).
    rewrite list_lookup_alter_eq, Hu. cbn. auto 10.
  - unfold noteOn. destruct (Z.eqb_spec vel 0); [contradiction|].
    cbn. auto 10.
Qed.

Lemma noteOn_touches_one_voice_witness :
  voices (noteOn (M := linear_libm) initial 60 100 0) !! 5%nat
  = voices initial !! 5%nat.
Proof.
  destruct (noteOn_touches_one_voice (M := linear_libm) initial 60 100 0 5
              wf_initial
              ltac:(lia)) as (H & _).
  apply H. vm_compute. lia.
Defined.

(** A note-off right after the note-on of the same note puts the voice
    just started into Release: it is still active, at level 0. *)
Theorem noteOn_then_noteOff :
  forall {M : Libm} (st : state) (n vel channel channel' : Z),
    wf st -> vel <> 0 ->
    exists v,
      voices (noteOff (noteOn st n vel channel) n channel')
        !! Z.to_nat (find_voice (voices st)) = Some v /\
      envStage v = 4 /\ active v = 1 /\ note v = n /\ envelope v = zero.
Proof.
  intros M st n vel channel channel' [Hlen _] Hvel.
  assert (voices st <> []) as Hne by (intros E; rewrite E in Hlen; discriminate).
  destruct (find_voice_bound _ Hne) as [_ Hk].
  apply lookup_lt_is_Some_2 in Hk. destruct Hk as [u Hu].
  exists (set_envStage (start_voice (sampleRate st) n vel u) 4).
  split; [|cbn; auto].
  unfold noteOff. cbn [voices set_voices].
  rewrite list_lookup_fmap, noteOn_voices, list_lookup_alter_eq, Hu
    by assumption.
  cbn [fmap option_fmap option_map]. f_equal.
  rewrite noteOff_voice_spec. destruct (decide _) as [_|H]; [reflexivity|].
  exfalso. apply H. cbn. repeat split; lia.
Qed.

Lemma noteOn_then_noteOff_witness :
  exists v,
    voices (noteOff (noteOn (M := linear_libm) initial 60 100 0) 60 0)
      !! Z.to_nat (find_voice (voices initial)) = Some v /\
    envStage v = 4 /\ active v = 1 /\ note v = 60 /\ envelope v = zero.
Proof.
  apply (noteOn_then_noteOff (M := linear_libm) initial 60 100 0 0
           wf_initial). lia.
Defined.

(** With every voice active, a note-on steals slot 0 whenever no voice has
    an envelope level strictly below that of voice 0; in particular when
    all levels are equal, as after note-ons with no [process] in
    between. *)
Theorem noteOn_steals_slot_0 :
  forall (st : state) (v0 : Voice),
    all_active (voices st) -> voices st !! 0%nat = Some v0 ->
    (forall w, w ∈ voices st -> lt (envelope w) (envelope v0) = false) ->
    find_voice (voices st) = 0.
Proof.
  intros st v0 Hall H0 Hlow.
  destruct (voices st) as [|v vs] eqn:E; [discriminate|].
  injection H0 as ->.
  destruct (find_voice_steal v0 vs Hall) as (k & u & -> & Hu & _ & Hk).
  destruct Hk as [->|Hlt]; [reflexivity|].
  rewrite Hlow in Hlt; [discriminate|].
  apply list_elem_of_lookup. exists k. exact Hu.
Qed.

Lemma noteOn_steals_slot_0_witness :
  find_voice
    [mkVoice 1 60 one zero zero (lit 1 2) 3 zero (zero, zero) zero;
     mkVoice 1 64 one zero zero (lit 1 2) 3 zero (zero, zero) zero;
     mkVoice 1 67 one zero zero one 2 zero (zero, zero) zero]
  = 0.
Proof.
  apply (noteOn_steals_slot_0
           (mkState (of_int 44100) 128
              [mkVoice 1 60 one zero zero (lit 1 2) 3 zero (zero, zero) zero;
               mkVoice 1 64 one zero zero (lit 1 2) 3 zero (zero, zero) zero;
               mkVoice 1 67 one zero zero one 2 zero (zero, zero) zero]
              (params initial) one zero zero 12345)
           (mkVoice 1 60 one zero zero (lit 1 2) 3 zero (zero, zero) zero)).
  - repeat constructor; cbn; lia.
  - reflexivity.
  - intros w Hw. apply list_elem_of_In in Hw. cbn in Hw.
    repeat (destruct Hw as [<-|Hw]; [reflexivity|]). destruct Hw.
Defined.

(** ** [reset], [init] and control changes *)

Lemma active_count_reset (vs : list Voice) :
  active_count (reset_voice <$> vs) = 0%nat.
Proof.
  induction vs as [|v vs IH]; [reflexivity|].
  rewrite fmap_cons, active_count_cons. simpl. exact IH.
Qed.

(** [reset] silences the pool: no voice is active, every envelope level
    and filter state is 0, pitch bend and mod wheel are 0.  It keeps the
    parameters, the master volume, the noise generator state and each
    voice's note, velocity and phase.  [reset] twice is [reset] once, and
    control change 123 is [reset].  [init] silences the pool as well and
    keeps parameters, master volume, pitch bend and mod wheel. *)
Theorem reset_silences_pool :
  forall (st : state) (sr : float) (bs value channel : Z),
    active_count (voices (reset st)) = 0%nat /\
    Forall (fun v => active v = 0 /\ envStage v = 0 /\ envelope v = zero /\
                     filterState v = (zero, zero)) (voices (reset st)) /\
    pitchBendValue (reset st) = zero /\ modWheel (reset st) = zero /\
    params (reset st) = params st /\
    masterVolume (reset st) = masterVolume st /\
    noiseState (reset st) = noiseState st /\
    note <$> voices (reset st) = note <$> voices st /\
    velocity <$> voices (reset st) = velocity <$> voices st /\
    phase <$> voices (reset st) = phase <$> voices st /\
    reset (reset st) = reset st /\
    controlChange st 123 value channel = reset st /\
    active_count (voices (init st sr bs)) = 0%nat /\
    params (init st sr bs) = params st /\
    masterVolume (init st sr bs) = masterVolume st /\
    pitchBendValue (init st sr bs) = pitchBendValue st.
Proof.
  intros st sr bs value channel.
  split; [apply active_count_reset|].
  split; [cbn [reset voices]; apply Forall_fmap, Forall_forall;
          intros v _; cbn; auto|].
  do 5 (split; [reflexivity|]).
  do 3 (split; [cbn [reset voices]; rewrite <- list_fmap_compose;
                apply list_fmap_ext; intros; reflexivity|]).
  split.
  - unfold reset. cbn [voices sampleRate bufferSize params masterVolume
                       noiseState]. f_equal.
    rewrite <- list_fmap_compose. apply list_fmap_ext. intros; reflexivity.
  - split; [reflexivity|]. split; [apply active_count_init|]. auto.
Qed.

(** A control change with a controller number other than 1, 7, 74, 71 and
    123 returns the state unchanged.  Only controller 123 touches the
    voices or the pitch bend, only controller 7 the master volume, only
    controllers 74 and 71 the parameters. *)
Theorem controlChange_unknown_is_ignored :
  forall (st : state) (cc value channel : Z),
    (cc <> 1 -> cc <> 7 -> cc <> 74 -> cc <> 71 -> cc <> 123 ->
     controlChange st cc value channel = st) /\
    (cc <> 123 ->
     voices (controlChange st cc value channel) = voices st /\
     pitchBendValue (controlChange st cc value channel)
     = pitchBendValue st) /\
    (cc <> 7 ->
     masterVolume (controlChange st cc value channel) = masterVolume st) /\
    (cc <> 74 -> cc <> 71 ->
     params (controlChange st cc value channel) = params st).
Proof.
  intros st cc value channel. unfold controlChange.
  split; [|split; [|split]]; intros;
    case_stage; cbn [voices pitchBendValue masterVolume params set_params
                     reset];
    try reflexivity; try (split; reflexivity); exfalso; lia.
Qed.

Lemma controlChange_unknown_is_ignored_witness :
  controlChange initial 64 127 0 = initial /\
  voices (controlChange initial 7 100 0) = voices initial.
Proof.
  destruct (controlChange_unknown_is_ignored initial 64 127 0) as (H & _).
  destruct (controlChange_unknown_is_ignored initial 7 100 0)
    as (_ & H' & _).
  split; [apply H; lia | apply H'; lia].
Defined.

(** Control changes 74 and 71 bypass [setParameter], but for a 7-bit value
    they keep the cutoff and the resonance inside the ranges [setParameter]
    enforces: [20, 20000] and [0, 1], with value 0 giving exactly 20 Hz
    and value 127 exactly 20000 Hz.  No other parameter changes. *)
Theorem controlChange_filter_in_range :
  forall (st : state) (value channel j : Z),
    wf st -> 0 <= value <= 127 ->
    in_range (getParameter (controlChange st 74 value channel) 5)
             (param_min 5) (param_max 5) = true /\
    in_range (getParameter (controlChange st 71 value channel) 6)
             (param_min 6) (param_max 6) = true /\
    getParameter (controlChange st 74 0 channel) 5 = of_int 20 /\
    getParameter (controlChange st 74 127 channel) 5 = of_int 20000 /\
    (j <> 5 -> getParameter (controlChange st 74 value channel) j
               = getParameter st j) /\
    (j <> 6 -> getParameter (controlChange st 71 value channel) j
               = getParameter st j).
Proof.
  intros st value channel j [_ Hp] Hv.
  assert (forall x, getParameter (controlChange st 74 x channel) 5
                    = add (of_int 20)
                          (mul (div (of_int x) (of_int 127)) (of_int 19980)))
    as H74.
  { intros x. unfold getParameter, controlChange, load. cbn.
    rewrite list_lookup_insert_eq by lia. reflexivity. }
  assert (getParameter (controlChange st 71 value channel) 6
          = div (of_int value) (of_int 127)) as H71.
  { unfold getParameter, controlChange, load. cbn.
    rewrite list_lookup_insert_eq by lia. reflexivity. }
  split; [|split; [|split; [|split; [|split]]]].
  - rewrite H74.
    assert (forallb (fun k => in_range
                       (add (of_int 20)
                            (mul (div (of_int (Z.of_nat k)) (of_int 127))
                                 (of_int 19980)))
                       (param_min 5) (param_max 5)) (seq 0 128) = true) as H
      by (vm_compute; reflexivity).
    rewrite forallb_forall in H. specialize (H (Z.to_nat value)).
    rewrite Z2Nat.id in H by lia. apply H. apply in_seq. lia.
  - rewrite H71. apply div127_in_range. exact Hv.
  - rewrite H74. vm_compute. reflexivity.
  - rewrite H74. vm_compute. reflexivity.
  - intros Hj. unfold getParameter, controlChange.
    cbn [params set_params].
    destruct ((0 <=? j) && (j <? NUM_PARAMETERS)) eqn:G; [|reflexivity].
    apply andb_true_iff in G. rewrite Z.leb_le, Z.ltb_lt in G.
    unfold load. rewrite list_lookup_insert_ne by lia. reflexivity.
  - intros Hj. unfold getParameter, controlChange.
    cbn [params set_params].
    destruct ((0 <=? j) && (j <? NUM_PARAMETERS)) eqn:G; [|reflexivity].
    apply andb_true_iff in G. rewrite Z.leb_le, Z.ltb_lt in G.
    unfold load. rewrite list_lookup_insert_ne by lia. reflexivity.
Qed.

Lemma controlChange_filter_in_range_witness :
  in_range (getParameter (controlChange initial 74 64 0) 5)
           (of_int 20) (of_int 20000) = true /\
  getParameter (controlChange initial 74 64 0) 3 = getParameter initial 3.
Proof.
  destruct (controlChange_filter_in_range initial 64 0 3 wf_initial
              ltac:(lia)) as (H & _ & _ & _ & H' & _).
  split; [exact H | apply H'; lia].
Defined.

(** ** [process] *)

Lemma updateEnvelope_active (ps : list float) (sr : float) (v : Voice) :
  active (updateEnvelope ps sr v) = active v \/
  active (updateEnvelope ps sr v) = 0.
Proof.
  destruct v as [a n vel ph inc env stg tgt fs lfo].
  unfold updateEnvelope. cbn -[add sub mul div le ge lit one zero load].
  case_stage; cbn; auto.
Qed.

Lemma not_started_trans (vs1 vs2 vs3 : list Voice) :
  Forall2 not_started vs1 vs2 -> Forall2 not_started vs2 vs3 ->
  Forall2 not_started vs1 vs3.
Proof.
  intros H12. revert vs3.
  induction H12 as [|a b l k [Ha Hb] _ IH]; intros vs3 H23.
  - inversion H23. constructor.
  - inversion H23 as [|? c ? m [Hb' Hc] Hkm]; subst.
    constructor; [|apply IH; exact Hkm]. split.
    + intros E. pose proof (Ha E) as ->. apply Hb'. exact E.
    + intros Hc'. apply Hb, Hc. exact Hc'.
Qed.

Lemma not_started_refl (vs : list Voice) : Forall2 not_started vs vs.
Proof. induction vs; constructor; auto. split; auto. Qed.

Lemma not_started_count (vs vs' : list Voice) :
  Forall2 not_started vs vs' -> (active_count vs' <= active_count vs)%nat.
Proof.
  induction 1 as [|v v' l k [Hv Hv'] _ IH]; [reflexivity|].
  rewrite !active_count_cons.
  destruct (decide (active v' = 0)), (decide (active v = 0)); lia.
Qed.

Section Process.
Context {M : Libm}.

Lemma voice_loop_not_started (ps : list float) (sr pb detune : float)
    (waveform : Z) (vs : list Voice) :
  forall (ns : Z) (s0 : float),
    Forall2 not_started vs
      (fst (fst (voice_loop ps sr pb detune waveform vs ns s0))).
Proof.
  induction vs as [|v vs IH]; intros ns s0; [constructor|].
  cbn [voice_loop]. destruct (Z.eqb_spec (active v) 0) as [Ea|Ea].
  - specialize (IH ns s0).
    destruct (voice_loop ps sr pb detune waveform vs ns s0) as [[vs' ns'] s'].
    cbn [fst] in *. constructor; [split; auto|exact IH].
  - pose proof (voice_body_spec ps sr pb detune waveform v ns) as Hb.
    cbv zeta in Hb.
    destruct (voice_body ps sr pb detune waveform v ns) as [[v' ns1] voiced].
    cbn [fst snd] in Hb. destruct Hb as (_ & _ & Ha & _).
    specialize (IH ns1 (add s0 voiced)).
    destruct (voice_loop ps sr pb detune waveform vs ns1 _) as [[vs' ns'] s'].
    cbn [fst] in *. constructor; [|exact IH].
    split; [intros; contradiction|]. intros _. exact Ea.
Qed.

(** With no active voice the voice loop changes nothing. *)
Lemma voice_loop_silent (ps : list float) (sr pb detune : float)
    (waveform : Z) (vs : list Voice) (ns : Z) (s0 : float) :
  Forall (fun v => active v = 0) vs ->
  voice_loop ps sr pb detune waveform vs ns s0 = (vs, ns, s0).
Proof.
  induction 1 as [|v vs Hv _ IH]; [reflexivity|].
  cbn [voice_loop]. rewrite Hv, IH. reflexivity.
Qed.

Lemma sample_step_silent (waveform : Z) (detune : float) (st : state) :
  Forall (fun v => active v = 0) (voices st) ->
  sample_step waveform detune st
  = (st, tanhf (mul zero (masterVolume st))).
Proof.
  intros H. unfold sample_step. rewrite voice_loop_silent by exact H.
  rewrite instrument_state_eta. reflexivity.
Qed.

Lemma sample_step_frame (waveform : Z) (detune : float) (st : state) :
  let st' := fst (sample_step waveform detune st) in
  Forall2 not_started (voices st) (voices st') /\
  modWheel st' = modWheel st /\ bufferSize st' = bufferSize st.
Proof.
  cbv zeta. unfold sample_step.
  pose proof (voice_loop_not_started (params st) (sampleRate st)
                (pitchBendValue st) detune waveform (voices st)
                (noiseState st) zero) as H.
  destruct (voice_loop _ _ _ _ _ _ _ _) as [[vs ns] sample].
  cbn [fst voices modWheel bufferSize] in *. auto.
Qed.

Lemma iter_frame (waveform : Z) (detune : float) (n : nat) (st : state) :
  let st' := Nat.iter n (fun s => fst (sample_step waveform detune s)) st in
  Forall2 not_started (voices st) (voices st') /\
  modWheel st' = modWheel st /\ bufferSize st' = bufferSize st.
Proof.
  cbv zeta. induction n as [|n (IH1 & IH2 & IH3)].
  - split; [apply not_started_refl|auto].
  - rewrite Nat.iter_succ.
    destruct (sample_step_frame waveform detune
                (Nat.iter n (fun s => fst (sample_step waveform detune s)) st))
      as (H1 & -> & ->).
    split; [eapply not_started_trans; eassumption|auto].
Qed.

Lemma iter_silent (waveform : Z) (detune : float) (n : nat) (st : state) :
  Forall (fun v => active v = 0) (voices st) ->
  Nat.iter n (fun s => fst (sample_step waveform detune s)) st = st.
Proof.
  intros H. induction n as [|n IH]; [reflexivity|].
  rewrite Nat.iter_succ, IH, sample_step_silent by exact H. reflexivity.
Qed.

Lemma process_loop_cells_beyond (waveform : Z) (detune : float) (n j : nat)
    (acc : state * list float) :
  (n * 2 <= j)%nat ->
  snd (process_loop waveform detune n acc) !! j = snd acc !! j.
Proof.
  intros Hj. induction n as [|n IH]; [reflexivity|].
  rewrite process_loop_S. cbn [snd].
  rewrite !list_lookup_insert_ne by lia. apply IH. lia.
Qed.

Lemma memset_zero_lookup_lt (output : list float) (n j : nat) :
  (j < n)%nat -> (j < length output)%nat ->
  memset_zero output n !! j = Some zero.
Proof.
  intros Hn Hb. induction n as [|n IH]; [lia|].
  unfold memset_zero in *. rewrite foldl_seq_S. cbn [Nat.add].
  pose proof (memset_zero_length output n) as L. unfold memset_zero in L.
  destruct (decide (j = n)) as [->|Hne].
  - apply list_lookup_insert_eq. lia.
  - rewrite list_lookup_insert_ne by lia. apply IH. lia.
Qed.

Lemma memset_zero_lookup_ge (output : list float) (n j : nat) :
  (n <= j)%nat -> memset_zero output n !! j = output !! j.
Proof.
  intros Hj. induction n as [|n IH]; [reflexivity|].
  unfold memset_zero in *. rewrite foldl_seq_S. cbn [Nat.add].
  rewrite list_lookup_insert_ne by lia. apply IH. lia.
Qed.

End Process.

(** With no active voice a call of [process] for a sample count that is
    not negative returns, leaves the whole state as it is, the noise
    generator included, and writes tanh(0 * masterVolume) to every cell of
    the block. *)
Theorem process_silent_pool :
  forall {M : Libm} (st : state) (input output : list float)
         (numSamples : Z) (i : nat),
    Forall (fun v => active v = 0) (voices st) -> 0 <= numSamples ->
    exists out,
      process st input output numSamples = Some (st, out) /\
      ((i < Z.to_nat numSamples)%nat -> (i * 2 + 1 < length output)%nat ->
       out !! (i * 2)%nat = Some (tanhf (mul zero (masterVolume st))) /\
       out !! (i * 2 + 1)%nat = Some (tanhf (mul zero (masterVolume st)))).
Proof.
  intros M st input output numSamples i H Hn.
  rewrite process_returns by exact Hn.
  set (w := to_int (load (params st) 0)). set (d := load (params st) 7).
  destruct (process_loop w d (Z.to_nat numSamples)
              (st, memset_zero output (Z.to_nat numSamples * NUM_CHANNELS)))
    as [st' out] eqn:E.
  assert (st' = st) as ->.
  { apply (f_equal fst) in E. rewrite process_loop_state in E.
    cbn [fst] in E. rewrite iter_silent in E by exact H. congruence. }
  exists out. split; [reflexivity|].
  intros Hi Hlen.
  destruct (process_loop_cells w d (Z.to_nat numSamples) i st
              (memset_zero output (Z.to_nat numSamples * NUM_CHANNELS)) Hi)
    as [H0 H1]; [rewrite memset_zero_length; exact Hlen|].
  rewrite E in H0, H1. cbn [snd] in H0, H1.
  rewrite iter_silent, sample_step_silent in H0, H1 by exact H.
  split; assumption.
Qed.

Lemma process_silent_pool_witness :
  exists out,
    process (M := linear_libm) initial [] [one; one; one; one] 2
    = Some (initial, out) /\
    out !! 2%nat = Some (tanhf (Libm := linear_libm)
                               (mul zero (masterVolume initial))).
Proof.
  assert (Forall (fun v => active v = 0) (voices initial)) as H
    by (apply Forall_forall; intros v [-> _]%elem_of_replicate; reflexivity).
  destruct (process_silent_pool (M := linear_libm) initial []
              [one; one; one; one] 2 1 H ltac:(lia)) as (out & Hs & Hc).
  exists out. split; [exact Hs|].
  destruct Hc as [H2 _]; [simpl; lia | simpl; lia | exact H2].
Defined.

(** A call of [process] for a sample count that is not negative returns;
    it overwrites the first [2 * numSamples] cells of the output and
    nothing else: later cells and the length of the buffer are kept, and
    the result does not depend on the input buffer nor on what the output
    cells held before the call. *)
Theorem process_overwrites_block :
  forall {M : Libm} (st : state) (input input' output output' : list float)
         (numSamples : Z),
    0 <= numSamples ->
    let n := Z.to_nat numSamples in
    exists st' out,
      process st input output numSamples = Some (st', out) /\
      (forall j, (n * 2 <= j)%nat -> out !! j = output !! j) /\
      length out = length output /\
      (length output' = length output ->
       (forall j, (n * 2 <= j)%nat -> output' !! j = output !! j) ->
       process st input' output' numSamples = Some (st', out)).
Proof.
  intros M st input input' output output' numSamples Hn. cbv zeta.
  rewrite !process_returns by exact Hn.
  set (w := to_int (load (params st) 0)). set (d := load (params st) 7).
  destruct (process_loop w d (Z.to_nat numSamples)
              (st, memset_zero output (Z.to_nat numSamples * NUM_CHANNELS)))
    as [st' out] eqn:E.
  exists st', out. split; [reflexivity|].
  assert (out = snd (process_loop w d (Z.to_nat numSamples)
                       (st, memset_zero output
                              (Z.to_nat numSamples * NUM_CHANNELS))))
    as Eo by (rewrite E; reflexivity).
  split; [|split].
  - intros j Hj. rewrite Eo.
    rewrite process_loop_cells_beyond by (cbn [snd]; exact Hj).
    cbn [snd]. apply memset_zero_lookup_ge. unfold NUM_CHANNELS. exact Hj.
  - rewrite Eo, process_loop_length. cbn [snd]. apply memset_zero_length.
  - intros Hlen Hsame. rewrite <- E. f_equal. f_equal. f_equal.
    apply list_eq. intros j.
    unfold NUM_CHANNELS.
    destruct (decide (j < Z.to_nat numSamples * 2)%nat) as [Hlt|Hge].
    + destruct (decide (j < length output)%nat) as [Hin|Hout].
      * rewrite !memset_zero_lookup_lt by lia. reflexivity.
      * rewrite !lookup_ge_None_2 by (rewrite memset_zero_length; lia).
        reflexivity.
    + rewrite !memset_zero_lookup_ge by lia. apply Hsame. lia.
Qed.

Lemma process_overwrites_block_witness :
  exists st' out,
    process (M := linear_libm) initial [] [zero; zero; zero; zero; two] 2
    = Some (st', out) /\
    out !! 4%nat = Some two /\
    process (M := linear_libm) initial [one] [one; two; one; two; two] 2
    = Some (st', out).
Proof.
  destruct (process_overwrites_block (M := linear_libm) initial [] [one]
              [zero; zero; zero; zero; two] [one; two; one; two; two] 2
              ltac:(lia))
    as (st' & out & E & Hk & _ & H).
  exists st', out. split; [exact E|]. split.
  - rewrite Hk by (simpl; lia). reflexivity.
  - apply H; [reflexivity|].
    intros j Hj. do 4 (destruct j as [|j]; [simpl in Hj; lia|]). reflexivity.
Defined.

(** [process] never starts a voice.  In the state a call for a sample
    count that is not negative returns, an inactive voice is exactly as it
    was and a voice that is active was active before, so the number of
    active voices does not grow; the number of voices, the mod wheel, the
    parameters, the master volume, the pitch bend, the sample rate and the
    buffer size are kept. *)
Theorem process_never_starts_a_voice :
  forall {M : Libm} (st : state) (input output : list float)
         (numSamples : Z) (j : nat) (v : Voice),
    0 <= numSamples ->
    exists st' out,
      process st input output numSamples = Some (st', out) /\
      (voices st !! j = Some v -> active v = 0 -> voices st' !! j = Some v) /\
      (active_count (voices st') <= active_count (voices st))%nat /\
      length (voices st') = length (voices st) /\
      modWheel st' = modWheel st /\ params st' = params st /\
      masterVolume st' = masterVolume st /\
      pitchBendValue st' = pitchBendValue st /\
      sampleRate st' = sampleRate st /\
      bufferSize st' = bufferSize st.
Proof.
  intros M st input output numSamples j v Hn.
  rewrite process_returns by exact Hn.
  destruct (process_loop _ _ _ _) as [st' out] eqn:E.
  exists st', out. split; [reflexivity|].
  apply (f_equal fst) in E. rewrite process_loop_state in E.
  cbn [fst] in E. subst st'.
  destruct (iter_frame (to_int (load (params st) 0)) (load (params st) 7)
              (Z.to_nat numSamples) st) as (HF & Hm & Hbs).
  destruct (iter_globals (to_int (load (params st) 0)) (load (params st) 7)
              (Z.to_nat numSamples) st) as (Hp & Hs & Hv & Hb & _).
  split; [|split; [|split]]; [| | |auto 10].
  - intros Hj Ha.
    destruct (Forall2_lookup_l _ _ _ _ _ HF Hj) as (v' & Hv' & [Hk _]).
    rewrite Hv', (Hk Ha). reflexivity.
  - apply not_started_count. exact HF.
  - symmetry. eapply Forall2_length. exact HF.
Qed.

Lemma process_never_starts_a_voice_witness :
  exists st' out,
    process (M := linear_libm)
      (noteOn (M := linear_libm) initial 60 100 0) [] [zero; zero] 1
    = Some (st', out) /\
    voices st' !! 1%nat = Some zero_voice.
Proof.
  destruct (process_never_starts_a_voice (M := linear_libm)
              (noteOn (M := linear_libm) initial 60 100 0) [] [zero; zero]
              1 1 zero_voice ltac:(lia)) as (st' & out & E & H & _).
  exists st', out. split; [exact E|]. apply H; reflexivity.
Defined.

(** Processing [n + m] samples in one call leaves the state that
    processing [n] and then [m] samples leaves, and the samples written
    for the second part are the same: the sound does not depend on how the
    host cuts the stream into blocks.  The three calls return. *)
Theorem process_split :
  forall {M : Libm} (st : state) (in1 in2 in3 out1 out2 out3 : list float)
         (n m j : nat),
    exists (st1 st2 : state) (o1 o2 o3 : list float),
      process st in1 out1 (Z.of_nat n) = Some (st1, o1) /\
      process st1 in2 out2 (Z.of_nat m) = Some (st2, o2) /\
      process st in3 out3 (Z.of_nat (n + m)) = Some (st2, o3) /\
      ((j < m)%nat -> (j * 2 + 1 < length out2)%nat ->
       ((n + j) * 2 + 1 < length out3)%nat ->
       o3 !! ((n + j) * 2)%nat = o2 !! (j * 2)%nat /\
       o3 !! ((n + j) * 2 + 1)%nat = o2 !! (j * 2 + 1)%nat).
Proof.
  intros M st in1 in2 in3 out1 out2 out3 n m j.
  set (w := to_int (load (params st) 0)). set (d := load (params st) 7).
  set (st1 := Nat.iter n (fun s => fst (sample_step w d s)) st).
  destruct (iter_globals w d n st) as (Hp & _). fold st1 in Hp.
  destruct (process_state st in1 out1 n) as [o1 E1].
  assert (forall k,
            Nat.iter (n + k) (fun s => fst (sample_step w d s)) st
            = Nat.iter k (fun s => fst (sample_step w d s)) st1)
    as Hadd by (intros k; rewrite Nat.add_comm; apply Nat.iter_add).
  destruct (process_loop w d m (st1, memset_zero out2 (m * NUM_CHANNELS)))
    as [st2 o2] eqn:E2.
  destruct (process_loop w d (n + m)
              (st, memset_zero out3 ((n + m) * NUM_CHANNELS)))
    as [st3 o3] eqn:E3.
  assert (st2 = Nat.iter m (fun s => fst (sample_step w d s)) st1) as S2.
  { apply (f_equal fst) in E2. rewrite process_loop_state in E2.
    symmetry. exact E2. }
  assert (st3 = st2) as ->.
  { apply (f_equal fst) in E3. rewrite process_loop_state, Hadd in E3.
    cbn [fst] in E3. congruence. }
  exists st1, st2, o1, o2, o3.
  split; [exact E1|]. split; [|split].
  - rewrite process_returns by lia. rewrite Nat2Z.id, Hp.
    fold w d. rewrite E2. reflexivity.
  - rewrite process_returns by lia. rewrite Nat2Z.id.
    fold w d. rewrite E3. reflexivity.
  - intros Hj H2 H3.
    destruct (process_loop_cells w d (n + m) (n + j) st
                (memset_zero out3 ((n + m) * NUM_CHANNELS)))
      as [F0 F1]; [lia | rewrite memset_zero_length; exact H3|].
    destruct (process_loop_cells w d m j st1
                (memset_zero out2 (m * NUM_CHANNELS)))
      as [G0 G1]; [lia | rewrite memset_zero_length; exact H2|].
    rewrite E3 in F0, F1. rewrite E2 in G0, G1. cbn [snd] in *.
    rewrite F0, F1, G0, G1, Hadd. split; reflexivity.
Qed.

Lemma process_split_witness :
  exists (st1 st2 : state) (o1 o2 o3 : list float),
    process (M := linear_libm)
      (noteOn (M := linear_libm) initial 69 127 0) [] (replicate 2 zero) 1
    = Some (st1, o1) /\
    process (M := linear_libm) st1 [] (replicate 4 zero) 2
    = Some (st2, o2) /\
    process (M := linear_libm)
      (noteOn (M := linear_libm) initial 69 127 0) [] (replicate 6 zero) 3
    = Some (st2, o3) /\
    o3 !! 4%nat = o2 !! 2%nat.
Proof.
  destruct (process_split (M := linear_libm)
              (noteOn (M := linear_libm) initial 69 127 0) [] [] []
              (replicate 2 zero) (replicate 4 zero) (replicate 6 zero)
              1 2 1) as (st1 & st2 & o1 & o2 & o3 & E1 & E2 & E3 & H).
  exists st1, st2, o1, o2, o3.
  split; [exact E1|]. split; [exact E2|]. split; [exact E3|].
  destruct H as [H _]; [lia | simpl; lia | simpl; lia | exact H].
Defined.

(** ** The noise generator state and the waveform parameter *)

Section NoiseState.
Context {M : Libm}.

Lemma generateOscillator_noise_state (v : Voice) (waveform ns : Z) :
  waveform <> 4 -> snd (fst (generateOscillator v waveform ns)) = ns.
Proof.
  intros Hw. unfold generateOscillator.
  destruct waveform as [|p|p]; [reflexivity| |reflexivity].
  destruct p as [[[p|p|]|[p|p|]|]|[[p|p|]|[p|p|]|]|];
    try reflexivity; congruence.
Qed.

Lemma voice_filtered_noise_state (ps : list float) (sr pb detune : float)
    (waveform : Z) (v : Voice) (ns : Z) :
  waveform <> 4 ->
  snd (voice_filtered ps sr pb detune waveform v ns) = ns.
Proof.
  intros Hw. unfold voice_filtered.
  match goal with
  | |- context [generateOscillator ?v0 _ _] =>
      pose proof (generateOscillator_noise_state v0 waveform ns Hw) as Ho;
      destruct (generateOscillator v0 waveform ns) as [[v1 ns1] osc]
  end.
  exact Ho.
Qed.

Lemma voice_loop_noise_state (ps : list float) (sr pb detune : float)
    (waveform : Z) (vs : list Voice) :
  waveform <> 4 ->
  forall (ns : Z) (s0 : float),
    snd (fst (voice_loop ps sr pb detune waveform vs ns s0)) = ns.
Proof.
  intros Hw. induction vs as [|v vs IH]; intros ns s0; [reflexivity|].
  cbn [voice_loop]. destruct (active v =? 0).
  - specialize (IH ns s0).
    destruct (voice_loop ps sr pb detune waveform vs ns s0) as [[vs' ns'] s'].
    exact IH.
  - pose proof (voice_body_spec ps sr pb detune waveform v ns) as Hb.
    cbv zeta in Hb. destruct Hb as (_ & Hns & _).
    rewrite voice_filtered_noise_state in Hns by exact Hw.
    destruct (voice_body ps sr pb detune waveform v ns) as [[v' ns2] voiced].
    cbn [fst snd] in Hns. subst ns2.
    specialize (IH ns (add s0 voiced)).
    destruct (voice_loop ps sr pb detune waveform vs ns _) as [[vs' ns'] s'].
    exact IH.
Qed.

Lemma sample_step_noise_state (waveform : Z) (detune : float) (st : state) :
  waveform <> 4 ->
  noiseState (fst (sample_step waveform detune st)) = noiseState st.
Proof.
  intros Hw. unfold sample_step.
  pose proof (voice_loop_noise_state (params st) (sampleRate st)
                (pitchBendValue st) detune waveform (voices st) Hw
                (noiseState st) zero) as H.
  destruct (voice_loop _ _ _ _ _ _ _ _) as [[vs ns] sample].
  exact H.
Qed.

Lemma iter_noise_state (waveform : Z) (detune : float) (n : nat)
    (st : state) :
  waveform <> 4 ->
  noiseState (Nat.iter n (fun s => fst (sample_step waveform detune s)) st)
  = noiseState st.
Proof.
  intros Hw. induction n as [|n IH]; [reflexivity|].
  rewrite Nat.iter_succ, sample_step_noise_state by exact Hw. exact IH.
Qed.

End NoiseState.

(** The noise generator is process-wide state, but [process] advances it
    only when the noise waveform is selected: with any other waveform the
    generator state a call for a sample count that is not negative returns
    is the one before the call. *)
Theorem process_keeps_noise_state :
  forall {M : Libm} (st : state) (input output : list float)
         (numSamples : Z),
    to_int (load (params st) 0) <> WAVE_NOISE -> 0 <= numSamples ->
    exists st' out,
      process st input output numSamples = Some (st', out) /\
      noiseState st' = noiseState st.
Proof.
  intros M st input output numSamples Hw Hn.
  rewrite process_returns by exact Hn.
  destruct (process_loop _ _ _ _) as [st' out] eqn:E.
  exists st', out. split; [reflexivity|].
  apply (f_equal fst) in E. rewrite process_loop_state in E.
  cbn [fst] in E. subst st'. apply iter_noise_state. exact Hw.
Qed.

Lemma process_keeps_noise_state_witness :
  exists st' out,
    process (M := linear_libm)
      (noteOn (M := linear_libm) initial 69 127 0) []
      [zero; zero; zero; zero] 2 = Some (st', out) /\
    noiseState st' = 12345.
Proof.
  apply (process_keeps_noise_state (M := linear_libm)
           (noteOn (M := linear_libm) initial 69 127 0) []
           [zero; zero; zero; zero] 2); [|lia].
  vm_compute. discriminate.
Defined.

(** Selecting waveform [k] (0 sine, 1 square, 2 saw, 3 triangle, 4 noise)
    with [setParameter(0, k)] makes [process] use waveform [k]: the cast
    of the stored float back to [int] gives [k]. *)
Theorem waveform_parameter_round_trip :
  forall (st : state) (k : Z),
    wf st -> 0 <= k <= 4 ->
    to_int (getParameter (setParameter st 0 (of_int k)) 0) = k /\
    to_int (load (params (setParameter st 0 (of_int k))) 0) = k.
Proof.
  intros st k Hwf Hk.
  assert (getParameter (setParameter st 0 (of_int k)) 0
          = load (params (setParameter st 0 (of_int k))) 0) as <-
    by reflexivity.
  rewrite ClampFacts.instrument_set_get by (assumption || lia).
  assert (k = 0 \/ k = 1 \/ k = 2 \/ k = 3 \/ k = 4) as C by lia.
  destruct C as [->|[->|[->|[->| ->]]]]; split; vm_compute; reflexivity.
Qed.

Lemma waveform_parameter_round_trip_witness :
  to_int (getParameter (setParameter initial 0 (of_int 3)) 0) = 3.
Proof.
  apply (waveform_parameter_round_trip initial 3 wf_initial). lia.
Defined.

End InstrumentExtras.
